(** * PISI repository cleaner: a shallow embedding of [repo_cleaner.py]

    The script scans a directory for [*.pisi] archives, groups them by
    package name, ranks each group newest first and removes everything
    after the [count] newest archives of each package.

    Strings are [string] (the bytes of the file name), the [packages]
    dictionary is an association list in insertion order (Python dictionaries
    iterate in insertion order and [find_redundant] depends on it), exceptions
    are an explicit result type, and the interactive part of the script is a
    function of the lines waiting on standard input and of the file system. *)

From Stdlib Require Import String Ascii List ZArith NArith Lia Bool DecimalString.
From Stdlib Require Import Permutation Sorting.Sorted.
Import ListNotations.

Local Open Scope string_scope.
Local Open Scope list_scope.

(** ** Python's exceptions and results *)

Inductive exn : Type :=
| ValueError                (* tuple unpacking with the wrong number of values *)
| OSError                   (* os.remove, or open and write of the error log, refused *)
| EOFError                  (* input() at the end of standard input *)
| SystemExit (code : Z).    (* exit(code) *)

Inductive result (A : Type) : Type :=
| Ok (a : A)
| Raise (e : exn).

Arguments Ok {A} a.
Arguments Raise {A} e.

(** ** String primitives of Python used by the script *)

Module Py.

(** [s.startswith(p)]. *)
Fixpoint startswith (s p : string) {struct p} : bool :=
  match p, s with
  | EmptyString, _ => true
  | String _ _, EmptyString => false
  | String b p', String a s' => Ascii.eqb a b && startswith s' p'
  end.

(** [s.split(sep)[0]] for a non-empty [sep]: the text before the first
    occurrence of [sep], all of [s] when [sep] does not occur. *)
Fixpoint split_head (sep s : string) : string :=
  match s with
  | EmptyString => EmptyString
  | String c s' =>
      if startswith s sep then EmptyString else String c (split_head sep s')
  end.

(** [sep in s]. *)
Fixpoint contains (sep s : string) : bool :=
  startswith s sep ||
  match s with
  | EmptyString => false
  | String _ s' => contains sep s'
  end.

(** [s.split(c)] for a one-character separator. *)
Fixpoint split (c : ascii) (s : string) : list string :=
  match s with
  | EmptyString => [EmptyString]
  | String a s' =>
      if Ascii.eqb a c then EmptyString :: split c s'
      else match split c s' with
           | w :: ws => String a w :: ws
           | [] => [String a EmptyString]
           end
  end.

(** [s.rpartition(c)] when [c] occurs in [s]: the text before and after the
    last occurrence. *)
Fixpoint rpartition (c : ascii) (s : string) : option (string * string) :=
  match s with
  | EmptyString => None
  | String a s' =>
      match rpartition c s' with
      | Some (l, r) => Some (String a l, r)
      | None => if Ascii.eqb a c then Some (EmptyString, s') else None
      end
  end.

(** [s.rsplit(c, maxsplit)]: at most [maxsplit] splits, taken from the right. *)
Fixpoint rsplit (c : ascii) (maxsplit : nat) (s : string) : list string :=
  match maxsplit with
  | O => [s]
  | S n =>
      match rpartition c s with
      | None => [s]
      | Some (l, r) => rsplit c n l ++ [r]
      end
  end.

(** [s.count(c)] for a one-character [c]. *)
Fixpoint count (c : ascii) (s : string) : nat :=
  match s with
  | EmptyString => 0
  | String a s' => (if Ascii.eqb a c then 1 else 0) + count c s'
  end.

(** [sep.join(l)]. *)
Definition join (sep : string) (l : list string) : string := String.concat sep l.

(** [s.endswith(suffix)]. *)
Fixpoint endswith (s suffix : string) : bool :=
  String.eqb s suffix ||
  match s with
  | EmptyString => false
  | String _ s' => endswith s' suffix
  end.

(** [os.path.join(a, b)] of posixpath. *)
Definition os_path_join (a b : string) : string :=
  if startswith b "/" then b
  else if String.eqb a "" || endswith a "/" then a ++ b
  else a ++ "/" ++ b.

(** [l[k:]] for a Python integer [k]: a negative [k] counts from the end and
    is clamped at the start of the list. *)
Definition slice_from {A : Type} (k : Z) (l : list A) : list A :=
  if (0 <=? k)%Z then skipn (Z.to_nat k) l
  else skipn (length l - Z.to_nat (- k)) l.

(** [c.lower()] on the ASCII letters. *)
Definition lower (c : ascii) : ascii :=
  let n := nat_of_ascii c in
  if (65 <=? n)%nat && (n <=? 90)%nat then ascii_of_nat (n + 32) else c.

End Py.

(** ** Dictionaries in insertion order *)

Module Dict.

Definition t (V : Type) : Type := list (string * V).

(** [d.get(k)]. *)
Fixpoint get {V : Type} (d : t V) (k : string) : option V :=
  match d with
  | [] => None
  | (k', v) :: d' => if String.eqb k' k then Some v else get d' k
  end.

(** [d.update({k: v})]: a key already present keeps its place, a new key is
    added at the end. *)
Fixpoint update {V : Type} (d : t V) (k : string) (v : V) : t V :=
  match d with
  | [] => [(k, v)]
  | (k', v') :: d' =>
      if String.eqb k' k then (k, v) :: d' else (k', v') :: update d' k v
  end.

Definition keys {V : Type} (d : t V) : list string := map fst d.

End Dict.

(** ** Versions made of numbers *)

Module Release.

(** Modelled from the spec: [packaging.version] is a third-party library and
    not part of the repository.  This module is its reading of a version made
    of purely numeric segments separated by dots, the case the spec describes:
    the segments are integers, compared by value from left to right, and
    zeros at the end do not count (PEP 440: 1.0 and 1.0.0 are the same
    release).  Any other string is refused here: the module covers the
    releases only, not the pre-release, post-release and local versions that
    the library also reads.  The concrete scans below use it with strings
    that the library refuses as well. *)
Definition t : Type := list N.

Definition digit (c : ascii) : option N :=
  let n := N_of_ascii c in
  if (48 <=? n)%N && (n <=? 57)%N then Some (n - 48)%N else None.

Fixpoint number_from (acc : N) (s : string) : option N :=
  match s with
  | EmptyString => Some acc
  | String c s' =>
      match digit c with
      | Some d => number_from (10 * acc + d)%N s'
      | None => None
      end
  end.

Definition number (s : string) : option N :=
  match s with
  | EmptyString => None
  | _ => number_from 0%N s
  end.

Fixpoint numbers (l : list string) : option (list N) :=
  match l with
  | [] => Some []
  | s :: l' =>
      match number s, numbers l' with
      | Some n, Some ns => Some (n :: ns)
      | _, _ => None
      end
  end.

Fixpoint drop_trailing_zeros (l : list N) : list N :=
  match l with
  | [] => []
  | n :: l' =>
      match drop_trailing_zeros l' with
      | [] => if (n =? 0)%N then [] else [n]
      | r => n :: r
      end
  end.

(** Modelled from the spec: [parse] of [packaging.version] on the strings
    whose segments are all numbers. *)
Definition parse (s : string) : option t :=
  option_map drop_trailing_zeros (numbers (Py.split "." s)).

(** Modelled from the spec: [<] of [packaging.version] on such versions, the
    order of tuples of integers. *)
Fixpoint lt (a b : t) : bool :=
  match a, b with
  | _, [] => false
  | [], _ :: _ => true
  | x :: a', y :: b' => (x <? y)%N || ((x =? y)%N && lt a' b')
  end.

End Release.

(** ** The cleaner, over the version type of [packaging.version] *)

(** One line of the error log: the message is formatted from the file name and
    its version field (and the text of the exception). *)
Record log_line : Type := LogLine {
  log_file : string;
  log_version : string
}.

Section Cleaner.

(** [packaging.version] is a third-party library.  [Version] is the type of
    its versions, [parse_version s] is [None] when [parse(s)] raises
    [InvalidVersion], and [version_lt] is [<] on versions. *)
Variable Version : Type.
Variable parse_version : string -> option Version.
Variable version_lt : Version -> Version -> bool.

(** The error log is a file of the working directory that the handler of
    lines 122 to 126 opens and appends to.  [log_writable log] tells whether
    that succeeds once the lines [log] have been written; when it does not,
    the [OSError] of [open] or [write] leaves the handler uncaught.  It is
    the file system that refuses: the text of the line plays no part. *)
Variable log_writable : list log_line -> bool.

(** An element of a package's ['versions'] list. *)
Record entry : Type := Entry {
  path : string;
  version : list string;
  comparable_version : Version
}.

(** The value stored for a package name. *)
Record package : Type := Package {
  pisi_version : string;
  arch : string;
  versions : list entry
}.

Definition packages : Type := Dict.t package.

(** *** parse_packages *)

(** What the body of the loop finds out about one file before it touches the
    dictionary. *)
Inductive parsed : Type :=
| Parsed (package_name pisi_version arch : string) (e : entry)
| Skipped (l : log_line).

(** [a, b, c, d, e = l] *)
Definition unpack5 (l : list string)
  : result (string * string * string * string * string) :=
  match l with
  | [a; b; c; d; e] => Ok (a, b, c, d, e)
  | _ => Raise ValueError
  end.

(** Lines 99 to 101: the extension is cut off and the name is split at its
    last four dashes. *)
Definition split_fields (pisi_file : string)
  : result (string * string * string * string * string) :=
  let package_name_without_extension := Py.split_head ".pisi" pisi_file in
  unpack5 (Py.rsplit "-" 4 package_name_without_extension).

(** Lines 99 to 106 and the handler of lines 122 to 126: the unpacking is
    before the [try], so its [ValueError] is not caught; a version that
    [parse_version] refuses is logged. *)
Definition parse_file (path pisi_file : string) : result parsed :=
  match split_fields pisi_file with
  | Raise e => Raise e
  | Ok (package_name, version, revision, pisi_version, arch) =>
      let version_tuple := Py.split "." version ++ [revision] in
      match parse_version (Py.join "." version_tuple) with
      | Some comparable_version =>
          Ok (Parsed package_name pisi_version arch
                (Entry path version_tuple comparable_version))
      | None => Ok (Skipped (LogLine pisi_file version))
      end
  end.

(** Lines 112 to 120: the entry is appended to the package's versions and the
    package's [pisi_version] and [arch] are set from this file. *)
Definition add_entry (pkgs : packages) (package_name pisi_version arch : string)
    (e : entry) : packages :=
  let versions :=
    match Dict.get pkgs package_name with
    | Some package => versions package
    | None => []
    end in
  Dict.update pkgs package_name (Package pisi_version arch (versions ++ [e])).

(** The loop of [parse_packages] from a given dictionary and error log; the
    log is returned also when the loop is left by an exception: by the
    [ValueError] of the unpacking, or by the [OSError] of a log that cannot be
    written. *)
Fixpoint parse_loop (pkgs : packages) (log : list log_line)
    (pisi_files : list (string * string)) : list log_line * result packages :=
  match pisi_files with
  | [] => (log, Ok pkgs)
  | (path, pisi_file) :: rest =>
      match parse_file path pisi_file with
      | Raise e => (log, Raise e)
      | Ok (Parsed package_name pisi_version arch e) =>
          parse_loop (add_entry pkgs package_name pisi_version arch e) log rest
      | Ok (Skipped l) =>
          if log_writable log then parse_loop pkgs (log ++ [l]) rest
          else (log, Raise OSError)
      end
  end.

Definition parse_packages (pisi_files : list (string * string))
  : list log_line * result packages :=
  parse_loop [] [] pisi_files.

(** *** The file names the parser is written for

    An archive of the pattern [name-version-revision-toolVersion-arch.pisi],
    found in the directory [a_path]. *)

Record archive : Type := Archive {
  a_path : string;
  a_name : string;
  a_version : string;
  a_revision : string;
  a_tool : string;
  a_arch : string
}.

Definition archive_stem (x : archive) : string :=
  a_name x ++ "-" ++ a_version x ++ "-" ++ a_revision x ++ "-" ++ a_tool x
         ++ "-" ++ a_arch x.

Definition archive_file (x : archive) : string := archive_stem x ++ ".pisi".

(** What [scan_repository] returns for the archive. *)
Definition archive_scan (x : archive) : string * string := (a_path x, archive_file x).

(** The path of the archive, as [os.path.join] builds it. *)
Definition archive_full_path (x : archive) : string :=
  Py.os_path_join (a_path x) (archive_file x).

(** The version tuple the parser builds for an archive. *)
Definition archive_tuple (x : archive) : list string :=
  Py.split "." (a_version x) ++ [a_revision x].

(** The last four fields have no dash and [".pisi"] occurs only as the
    extension. *)
Definition well_formed (x : archive) : bool :=
  Nat.eqb (Py.count "-" (a_version x)) 0
  && Nat.eqb (Py.count "-" (a_revision x)) 0
  && Nat.eqb (Py.count "-" (a_tool x)) 0
  && Nat.eqb (Py.count "-" (a_arch x)) 0
  && negb (Py.contains ".pisi" (archive_stem x)).

(** The four fields after the package name hold no dash: the pattern
    [name-version-revision-toolVersion-arch.pisi] by itself. *)
Definition matches_pattern (x : archive) : bool :=
  Nat.eqb (Py.count "-" (a_version x)) 0
  && Nat.eqb (Py.count "-" (a_revision x)) 0
  && Nat.eqb (Py.count "-" (a_tool x)) 0
  && Nat.eqb (Py.count "-" (a_arch x)) 0.

(** The archive [x] under the tool version and the architecture of [y]. *)
Definition retagged (x y : archive) : archive :=
  Archive (a_path x) (a_name x) (a_version x) (a_revision x) (a_tool y) (a_arch y).

(** The entries of the scan that become versions of the package [name], in
    scan order, each with the [pisi_version] and [arch] of its file. *)
Definition entries_of (name : string) (pisi_files : list (string * string))
  : list (string * string * entry) :=
  flat_map
    (fun '(path, pisi_file) =>
       match parse_file path pisi_file with
       | Ok (Parsed package_name pisi_version arch e) =>
           if String.eqb package_name name then [(pisi_version, arch, e)] else []
       | _ => []
       end)
    pisi_files.

(** The value of a package after the entries [l] have been merged, in order,
    into the value [o] it had before. *)
Definition merged (o : option package) (l : list (string * string * entry))
  : option package :=
  match rev l with
  | [] => o
  | (pisi_version, arch, _) :: _ =>
      Some (Package pisi_version arch
              (match o with Some p => versions p | None => [] end ++ map snd l))
  end.

(** The lines the handler of lines 122 to 126 writes for a scan, in scan
    order. *)
Definition skipped_of (pisi_files : list (string * string)) : list log_line :=
  flat_map
    (fun '(path, pisi_file) =>
       match parse_file path pisi_file with
       | Ok (Skipped l) => [l]
       | _ => []
       end)
    pisi_files.

(** The package names of the files of the scan that are parsed, in scan
    order. *)
Definition parsed_names (pisi_files : list (string * string)) : list string :=
  flat_map
    (fun '(path, pisi_file) =>
       match parse_file path pisi_file with
       | Ok (Parsed package_name _ _ _) => [package_name]
       | _ => []
       end)
    pisi_files.

(** The names of [l] that are not in [seen], each at its first occurrence. *)
Fixpoint first_occurrences (seen l : list string) : list string :=
  match l with
  | [] => []
  | x :: l' =>
      if in_dec string_dec x seen then first_occurrences seen l'
      else x :: first_occurrences (seen ++ [x]) l'
  end.

(** The file is one whose version [parse_version] refuses. *)
Definition is_skipped (pf : string * string) : bool :=
  match parse_file (fst pf) (snd pf) with
  | Ok (Skipped _) => true
  | _ => false
  end.

(** *** find_redundant *)

(** [sorted(l, key=comparable_version, reverse=True)].  Python's sort is stable
    and asks only [<] of the keys: the result is in descending order of the
    keys and entries of equal keys keep the order they have in [l].  It is
    computed here by inserting the entries from the right; when [<] is a
    strict weak order every stable sort returns this list
    ([newest_first_unique]). *)
Fixpoint insert_newest_first (x : entry) (l : list entry) : list entry :=
  match l with
  | [] => [x]
  | y :: l' =>
      if version_lt (comparable_version x) (comparable_version y)
      then y :: insert_newest_first x l'
      else x :: l
  end.

Definition sorted_newest_first (l : list entry) : list entry :=
  fold_right insert_newest_first [] l.

(** What the ranking is meant to be: newest first, and entries that [<]
    does not tell apart in the order of the scan. *)
Definition same_rank (x y : entry) : bool :=
  negb (version_lt (comparable_version x) (comparable_version y))
  && negb (version_lt (comparable_version y) (comparable_version x)).

Definition newest_first (l : list entry) : Prop :=
  StronglySorted
    (fun x y => version_lt (comparable_version x) (comparable_version y) = false) l.

Definition stable_for (l ranked : list entry) : Prop :=
  forall x, filter (same_rank x) ranked = filter (same_rank x) l.

(** [<] on versions is a strict weak order: it is asymmetric and its
    complement is transitive. *)
Definition lt_asymmetric : Prop :=
  forall a b, version_lt a b = true -> version_lt b a = false.

Definition lt_negatively_transitive : Prop :=
  forall a b c, version_lt a b = false -> version_lt b c = false ->
                version_lt a c = false.

(** [packaging.version] reads and compares the versions made of numbers as
    [Release] does. *)
Definition numeric_versions_by_value : Prop :=
  forall s t v w a b,
    parse_version s = Some v -> parse_version t = Some w ->
    Release.parse s = Some a -> Release.parse t = Some b ->
    version_lt v w = Release.lt a b.

(** The file name of lines 147 to 153:
    ['{name}-{version}-{revision}-{pisi_version}-{arch}.pisi'], where
    [version] is [version['version'][:-1]] joined by dots and [revision] is
    [version['version'][-1]].  The tuples that [parse_packages] builds end
    with the revision and are never empty. *)
Definition format_pisi_file (name : string) (meta : package) (v : entry) : string :=
  name ++ "-" ++ Py.join "." (removelast (version v)) ++ "-" ++ last (version v) ""
       ++ "-" ++ pisi_version meta ++ "-" ++ arch meta ++ ".pisi".

(** The versions of one package that are not kept. *)
Definition redundant_versions (count : Z) (meta : package) : list entry :=
  Py.slice_from count (sorted_newest_first (versions meta)).

(** [count] is [args.count]. *)
Definition find_redundant (count : Z) (pkgs : packages) : list string :=
  flat_map
    (fun '(name, meta) =>
       map (fun v => Py.os_path_join (path v) (format_pisi_file name meta v))
           (redundant_versions count meta))
    pkgs.

(** *** The script's side effects

    The script reads lines from standard input, asks the file system about
    [args.directory] and removes files.  [world] is what it reads and changes;
    [events] records, in order, what it did.  Messages printed on standard
    output are not modelled. *)

Inductive event : Type :=
| Prompted (message : string) (answer : bool)   (* yes_no_prompt returned *)
| Logged (l : log_line)                         (* a line added to the error log *)
| Removed (p : string).                         (* os.remove(p) returned *)

Record world : Type := World {
  stdin : list string;                          (* the lines input() will return *)
  fs_exists : string -> bool;                   (* os.path.exists *)
  fs_isdir : string -> bool;                    (* os.path.isdir *)
  fs_walk : string -> list (string * list string);
                                                (* os.walk: each root and its files *)
  removable : list string;                      (* the paths os.remove can remove *)
  events : list event
}.

Definition IO (A : Type) : Type := world -> result A * world.

Definition ret {A : Type} (a : A) : IO A := fun w => (Ok a, w).

Definition raise {A : Type} (e : exn) : IO A := fun w => (Raise e, w).

Definition bind {A B : Type} (m : IO A) (k : A -> IO B) : IO B :=
  fun w =>
    match m w with
    | (Ok a, w') => k a w'
    | (Raise e, w') => (Raise e, w')
    end.

Notation "x <- m ;; k" := (bind m (fun x => k))
  (at level 61, m at next level, right associativity).
Notation "m ;; k" := (bind m (fun _ => k))
  (at level 61, right associativity).

Definition exit {A : Type} (code : Z) : IO A := raise (SystemExit code).

Definition when (b : bool) (m : IO unit) : IO unit := if b then m else ret tt.

(** [os.remove(p)]: it raises [OSError] for a path that is not among the
    removable ones (no such file, no permission). *)
Definition os_remove (p : string) : IO unit :=
  fun w =>
    if in_dec string_dec p (removable w)
    then (Ok tt, World (stdin w) (fs_exists w) (fs_isdir w) (fs_walk w)
                       (remove string_dec p (removable w))
                       (events w ++ [Removed p]))
    else (Raise OSError, w).

(** *** scan_repository *)

(** The loops of lines 56 to 60 over what [os.walk] yields. *)
Definition find_pisi_files (walk : list (string * list string))
  : list (string * string) :=
  flat_map
    (fun '(root, files) =>
       map (fun file => (root, file))
           (filter (fun file => Py.endswith file ".pisi") files))
    walk.

Definition scan_repository (directory : string) : IO (list (string * string)) :=
  fun w => (Ok (find_pisi_files (fs_walk w directory)), w).

(** [parse_packages] as a step of the script: the lines of the error log are
    written as the loop goes. *)
Definition parse_packages_io (pisi_files : list (string * string)) : IO packages :=
  fun w =>
    let (log, r) := parse_packages pisi_files in
    (r, World (stdin w) (fs_exists w) (fs_isdir w) (fs_walk w) (removable w)
              (events w ++ map Logged log)).

(** *** remove_excess *)

Fixpoint remove_excess (old_packages : list string) : IO unit :=
  match old_packages with
  | [] => ret tt
  | package :: rest => os_remove package ;; remove_excess rest
  end.

(** *** yes_no_prompt *)

(** The loop of [yes_no_prompt] over the lines waiting on standard input: the
    answer, if one comes before the end of the input, and the lines left. *)
Fixpoint read_answer (lines : list string) : result bool * list string :=
  match lines with
  | [] => (Raise EOFError, [])
  | answer :: rest =>
      match answer with
      | EmptyString => (Ok false, rest)
      | String c _ =>
          if Ascii.eqb (Py.lower c) "y" || Ascii.eqb (Py.lower c) "n"
          then (Ok (Ascii.eqb (Py.lower c) "y"), rest)
          else read_answer rest
      end
  end.

(** A line that [yes_no_prompt] asks again for: it is not empty and starts
    with none of y, Y, n, N. *)
Definition unrecognised (line : string) : bool :=
  match line with
  | EmptyString => false
  | String c _ => negb (Ascii.eqb (Py.lower c) "y" || Ascii.eqb (Py.lower c) "n")
  end.

Definition yes_no_prompt (message : string) : IO bool :=
  fun w =>
    let (r, rest) := read_answer (stdin w) in
    (r, World rest (fs_exists w) (fs_isdir w) (fs_walk w) (removable w)
              (match r with
               | Ok answer => events w ++ [Prompted message answer]
               | Raise _ => events w
               end)).

(** *** The script *)

Record arguments : Type := Arguments {
  directory : string;
  count : Z
}.

Definition zero_count_message : string :=
  "Entering 0 (zero) as count will cause all PISI packages to be "
  ++ "removed from the directory. Do you really want to continue?".

Definition remove_message (n : nat) : string :=
  NilZero.string_of_uint (Nat.to_uint n)
  ++ " redundant packages found. Do you really want to remove them?".

Definition is_empty {A : Type} (l : list A) : bool :=
  match l with
  | [] => true
  | _ => false
  end.

Definition os_path_exists (p : string) : IO bool := fun w => (Ok (fs_exists w p), w).

Definition os_path_isdir (p : string) : IO bool := fun w => (Ok (fs_isdir w p), w).

(** Lines 203 to 207: a count of 0 has to be confirmed. *)
Definition confirm_zero_count (args : arguments) : IO unit :=
  when (count args =? 0)%Z
    (ok <- yes_no_prompt zero_count_message ;;
     when (negb ok) (exit 0)).

(** Lines 209 to 237: the checks, the scan, the selection and the removal. *)
Definition clean (args : arguments) : IO unit :=
  found <- os_path_exists (directory args) ;;
  (if negb found then exit (-1)
   else isdir <- os_path_isdir (directory args) ;;
        when (negb isdir) (exit (-2))) ;;
  pisi_files <- scan_repository (directory args) ;;
  when (is_empty pisi_files) (exit 1) ;;
  packages <- parse_packages_io pisi_files ;;
  when (is_empty packages) (exit (-3)) ;;
  let redundant_packages := find_redundant (count args) packages in
  when (is_empty redundant_packages) (exit 0) ;;
  ok <- yes_no_prompt (remove_message (length redundant_packages)) ;;
  when ok (remove_excess redundant_packages).

Definition main (args : arguments) : IO unit :=
  confirm_zero_count args ;; clean args.

(** The run gets past the question that a count of 0 asks. *)
Definition proceeds (args : arguments) (w : world) : Prop :=
  count args <> 0%Z \/ fst (read_answer (stdin w)) = Ok true.

(** The world once that question has been answered with yes. *)
Definition after_zero_count (args : arguments) (w : world) : world :=
  if (count args =? 0)%Z
  then World (snd (read_answer (stdin w))) (fs_exists w) (fs_isdir w) (fs_walk w)
             (removable w) (events w ++ [Prompted zero_count_message true])
  else w.

Definition is_removed (e : event) : bool :=
  match e with
  | Removed _ => true
  | _ => false
  end.

Definition not_removed (e : event) : bool := negb (is_removed e).

(** The exit status of the process: [exit(code)] ends it with the low eight
    bits of [code] (255 for -1, 254 for -2, 253 for -3), the end of the script
    with 0 and an exception nobody catches with 1. *)
Definition exit_status (r : result unit) : Z :=
  match r with
  | Ok _ => 0
  | Raise (SystemExit code) => code mod 256
  | Raise _ => 1
  end.

(** ** Sanity checks of the primitives *)

Example split_head_ex1 :
  Py.split_head ".pisi" "firefox-70.0-1-p2-x86_64.pisi" = "firefox-70.0-1-p2-x86_64".
Proof. reflexivity. Qed.

Example split_head_ex2 : Py.split_head ".pisi" "README" = "README".
Proof. reflexivity. Qed.

Example rsplit_ex1 :
  Py.rsplit "-" 4 "gtk-doc-1.2-3-p2-x86_64" = ["gtk-doc"; "1.2"; "3"; "p2"; "x86_64"].
Proof. reflexivity. Qed.

Example rsplit_ex2 : Py.rsplit "-" 4 "bad-file" = ["bad"; "file"].
Proof. reflexivity. Qed.

Example split_ex1 : Py.split "." "1.1.10.546" = ["1"; "1"; "10"; "546"].
Proof. reflexivity. Qed.

Example split_ex2 : Py.split "." "" = [""].
Proof. reflexivity. Qed.

Example join_ex1 : Py.join "." ["70"; "0"; "1"] = "70.0.1".
Proof. reflexivity. Qed.

Example os_path_join_ex1 : Py.os_path_join "/repo/f" "a.pisi" = "/repo/f/a.pisi".
Proof. reflexivity. Qed.

Example os_path_join_ex2 : Py.os_path_join "/repo/f/" "a.pisi" = "/repo/f/a.pisi".
Proof. reflexivity. Qed.

Example slice_from_ex1 : Py.slice_from 3 [1; 2; 3; 4; 5] = [4; 5].
Proof. reflexivity. Qed.

Example slice_from_ex2 : Py.slice_from (-1) [1; 2; 3; 4; 5] = [5].
Proof. reflexivity. Qed.

Example lower_ex1 : Py.lower "Y" = "y"%char /\ Py.lower "n" = "n"%char.
Proof. split; reflexivity. Qed.

Example release_parse_ex1 : Release.parse "1.10.0.1" = Some [1; 10; 0; 1]%N.
Proof. reflexivity. Qed.

Example release_parse_ex2 : Release.parse "1.0.0" = Some [1]%N.
Proof. reflexivity. Qed.

Example release_parse_ex3 : Release.parse "1.0x.1" = None.
Proof. reflexivity. Qed.

Example release_lt_ex1 :
  Release.lt [1; 9; 0; 1]%N [1; 10; 0; 1]%N = true /\
  Release.lt [1; 10; 0; 1]%N [1; 9; 0; 1]%N = false.
Proof. split; reflexivity. Qed.

(** ** Facts about the string primitives *)

Lemma append_assoc (s1 s2 s3 : string) : ((s1 ++ s2) ++ s3 = s1 ++ s2 ++ s3)%string.
Proof. induction s1 as [|a s1 IH]; simpl; [reflexivity | now rewrite IH]. Qed.

Lemma append_empty_r (s : string) : (s ++ "" = s)%string.
Proof. induction s as [|a s IH]; simpl; [reflexivity | now rewrite IH]. Qed.

Lemma length_append (s1 s2 : string) :
  String.length (s1 ++ s2)%string = String.length s1 + String.length s2.
Proof. induction s1 as [|a s1 IH]; simpl; [reflexivity | now rewrite IH]. Qed.

Lemma count_append (c : ascii) (s1 s2 : string) :
  Py.count c (s1 ++ s2)%string = Py.count c s1 + Py.count c s2.
Proof. induction s1 as [|a s1 IH]; simpl; [reflexivity | rewrite IH; lia]. Qed.

Lemma rpartition_none (c : ascii) (s : string) :
  Py.rpartition c s = None <-> Py.count c s = 0.
Proof.
  induction s as [|a s IH]; simpl.
  - tauto.
  - destruct (Py.rpartition c s) as [[l r]|].
    + split; [discriminate|].
      intros H. assert (Hs : Py.count c s = 0) by lia.
      apply IH in Hs. discriminate.
    + destruct (Ascii.eqb a c); split; intros H; try discriminate; try reflexivity.
      * apply IH; reflexivity.
Qed.

Lemma rpartition_some (c : ascii) (s l r : string) :
  Py.rpartition c s = Some (l, r) ->
  s = (l ++ String c r)%string /\ Py.count c r = 0.
Proof.
  revert l. induction s as [|a s IH]; simpl; intros l H; [discriminate|].
  destruct (Py.rpartition c s) as [[l' r']|] eqn:E.
  - inversion H; subst. destruct (IH l' eq_refl) as [-> Hr].
    split; [reflexivity | assumption].
  - destruct (Ascii.eqb a c) eqn:Eac; [|discriminate].
    inversion H; subst. apply Ascii.eqb_eq in Eac. subst a.
    split; [reflexivity|]. now apply rpartition_none.
Qed.

Lemma rpartition_last (c : ascii) (l r : string) :
  Py.count c r = 0 -> Py.rpartition c (l ++ String c r)%string = Some (l, r).
Proof.
  intros Hr. induction l as [|a l IH]; simpl.
  - apply rpartition_none in Hr. rewrite Hr, Ascii.eqb_refl. reflexivity.
  - rewrite IH. reflexivity.
Qed.

Lemma rsplit_last (c : ascii) (n : nat) (l r : string) :
  Py.count c r = 0 ->
  Py.rsplit c (S n) (l ++ String c r)%string = Py.rsplit c n l ++ [r].
Proof. intros Hr. simpl. now rewrite rpartition_last. Qed.

Lemma length_rsplit (c : ascii) (n : nat) (s : string) :
  length (Py.rsplit c n s) = S (Nat.min n (Py.count c s)).
Proof.
  revert s. induction n as [|n IH]; intros s; simpl; [reflexivity|].
  destruct (Py.rpartition c s) as [[l r]|] eqn:E.
  - apply rpartition_some in E. destruct E as [-> Hr].
    rewrite length_app, IH, count_append.
    cbn [Py.count length]. rewrite Ascii.eqb_refl, Hr.
    replace (Py.count c l + (1 + 0)) with (S (Py.count c l)) by lia. lia.
  - apply rpartition_none in E. rewrite E. reflexivity.
Qed.

Lemma join_snoc (sep : string) (l : list string) (r : string) :
  l <> [] -> Py.join sep (l ++ [r]) = (Py.join sep l ++ sep ++ r)%string.
Proof.
  unfold Py.join. induction l as [|x l IH]; intros Hl; [congruence|].
  destruct l as [|y l].
  - reflexivity.
  - change ((x ++ sep ++ String.concat sep ((y :: l) ++ [r]%list)
             = (x ++ sep ++ String.concat sep (y :: l)) ++ sep ++ r)%string).
    rewrite IH by discriminate. now rewrite !append_assoc.
Qed.

Lemma rsplit_not_nil (c : ascii) (n : nat) (s : string) : Py.rsplit c n s <> [].
Proof.
  intros H. apply (f_equal (@length string)) in H.
  rewrite length_rsplit in H. discriminate.
Qed.

Lemma join_rsplit (c : ascii) (n : nat) (s : string) :
  Py.join (String c "") (Py.rsplit c n s) = s.
Proof.
  revert s. induction n as [|n IH]; intros s; simpl; [reflexivity|].
  destruct (Py.rpartition c s) as [[l r]|] eqn:E; [|reflexivity].
  apply rpartition_some in E. destruct E as [-> _].
  rewrite join_snoc by apply rsplit_not_nil. now rewrite IH.
Qed.

Lemma split_not_nil (c : ascii) (s : string) : Py.split c s <> [].
Proof.
  destruct s as [|a s]; simpl; [discriminate|].
  destruct (Ascii.eqb a c); [discriminate|].
  destruct (Py.split c s); discriminate.
Qed.

Lemma join_split (c : ascii) (s : string) :
  Py.join (String c "") (Py.split c s) = s.
Proof.
  unfold Py.join. induction s as [|a s IH]; simpl; [reflexivity|].
  destruct (Ascii.eqb a c) eqn:E.
  - apply Ascii.eqb_eq in E. subst a.
    destruct (Py.split c s) as [|w ws] eqn:Es; [now apply split_not_nil in Es|].
    simpl in *. now rewrite IH.
  - destruct (Py.split c s) as [|w ws] eqn:Es; [now apply split_not_nil in Es|].
    destruct ws as [|w' ws]; simpl in *; now rewrite <- IH.
Qed.

(** An occurrence of the extension that starts inside [s] and runs into a
    following [".pisi"] is already an occurrence inside [s]: the extension has
    a dot only at its start. *)
Lemma startswith_pisi_append (s rest : string) :
  s <> "" -> Py.startswith (s ++ ".pisi" ++ rest)%string ".pisi" = true ->
  Py.startswith s ".pisi" = true.
Proof.
  intros Hs.
  destruct s as [|a1 [|a2 [|a3 [|a4 [|a5 s]]]]]; [congruence|..];
    cbn [Py.startswith String.append];
    repeat match goal with
           | |- context [Ascii.eqb ?x ?y] =>
               is_var x; destruct (Ascii.eqb x y) eqn:?
           end;
    repeat match goal with
           | H : Ascii.eqb _ _ = true |- _ => apply Ascii.eqb_eq in H; subst
           end;
    cbn; intros; try discriminate; reflexivity.
Qed.

Lemma split_head_first (pre rest : string) :
  Py.contains ".pisi" pre = false ->
  Py.split_head ".pisi" (pre ++ ".pisi" ++ rest)%string = pre.
Proof.
  induction pre as [|a pre IH]; intros H.
  - reflexivity.
  - change (Py.contains ".pisi" (String a pre))
      with (Py.startswith (String a pre) ".pisi" || Py.contains ".pisi" pre) in H.
    apply orb_false_elim in H. destruct H as [Hp Hc].
    change (Py.split_head ".pisi" (String a pre ++ ".pisi" ++ rest)%string)
      with (if Py.startswith (String a pre ++ ".pisi" ++ rest)%string ".pisi" then ""
            else String a (Py.split_head ".pisi" (pre ++ ".pisi" ++ rest)%string)).
    destruct (Py.startswith (String a pre ++ ".pisi" ++ rest)%string ".pisi") eqn:E.
    + apply startswith_pisi_append in E; [congruence | discriminate].
    + now rewrite IH.
Qed.

(** ** Parsing the names of the pattern *)

Lemma archive_stem_snoc (x : archive) :
  archive_stem x
  = ((((a_name x ++ String "-" (a_version x)) ++ String "-" (a_revision x))
        ++ String "-" (a_tool x)) ++ String "-" (a_arch x))%string.
Proof. unfold archive_stem. now rewrite !append_assoc. Qed.

Lemma well_formed_inv (x : archive) :
  well_formed x = true ->
  Py.count "-" (a_version x) = 0 /\ Py.count "-" (a_revision x) = 0 /\
  Py.count "-" (a_tool x) = 0 /\ Py.count "-" (a_arch x) = 0 /\
  Py.contains ".pisi" (archive_stem x) = false.
Proof.
  unfold well_formed. rewrite !andb_true_iff, !Nat.eqb_eq, negb_true_iff.
  tauto.
Qed.

Lemma rsplit_archive_stem (x : archive) :
  well_formed x = true ->
  Py.rsplit "-" 4 (archive_stem x)
  = [a_name x; a_version x; a_revision x; a_tool x; a_arch x].
Proof.
  intros H. apply well_formed_inv in H. destruct H as (Hv & Hr & Ht & Ha & _).
  rewrite archive_stem_snoc.
  rewrite !rsplit_last by assumption. reflexivity.
Qed.

Lemma split_head_archive_file (x : archive) :
  well_formed x = true -> Py.split_head ".pisi" (archive_file x) = archive_stem x.
Proof.
  intros H. apply well_formed_inv in H. destruct H as (_ & _ & _ & _ & H).
  unfold archive_file.
  change ".pisi" with (".pisi" ++ "")%string at 2.
  now apply split_head_first.
Qed.

Lemma split_fields_archive (x : archive) :
  well_formed x = true ->
  split_fields (archive_file x)
  = Ok (a_name x, a_version x, a_revision x, a_tool x, a_arch x).
Proof.
  intros H. unfold split_fields.
  rewrite split_head_archive_file, rsplit_archive_stem by assumption.
  reflexivity.
Qed.

Lemma parse_file_archive (x : archive) :
  well_formed x = true ->
  parse_file (a_path x) (archive_file x)
  = match parse_version (Py.join "." (archive_tuple x)) with
    | Some v => Ok (Parsed (a_name x) (a_tool x) (a_arch x)
                      (Entry (a_path x) (archive_tuple x) v))
    | None => Ok (Skipped (LogLine (archive_file x) (a_version x)))
    end.
Proof.
  intros H. unfold parse_file. rewrite split_fields_archive by assumption.
  reflexivity.
Qed.

(** Rebuilding the name from the stored tuple with the archive's own
    [pisi_version] and [arch] gives the name back. *)
Lemma format_pisi_file_archive (x : archive) (vs : list entry) (v : Version) :
  format_pisi_file (a_name x) (Package (a_tool x) (a_arch x) vs)
                   (Entry (a_path x) (archive_tuple x) v)
  = archive_file x.
Proof.
  unfold format_pisi_file, archive_file, archive_stem, archive_tuple.
  cbn [version pisi_version arch].
  rewrite removelast_last, last_last, join_split.
  now rewrite !append_assoc.
Qed.

(** ** Dictionaries *)

Lemma get_In {V : Type} (d : Dict.t V) (k : string) (v : V) :
  Dict.get d k = Some v -> In (k, v) d.
Proof.
  induction d as [|[k' v'] d IH]; simpl; [discriminate|].
  destruct (String.eqb k' k) eqn:E.
  - apply String.eqb_eq in E. subst. intros [= ->]. now left.
  - intros H. right. now apply IH.
Qed.

Lemma get_update_same {V : Type} (d : Dict.t V) (k : string) (v : V) :
  Dict.get (Dict.update d k v) k = Some v.
Proof.
  induction d as [|[k' v'] d IH]; simpl.
  - now rewrite String.eqb_refl.
  - destruct (String.eqb k' k) eqn:E; simpl.
    + now rewrite String.eqb_refl.
    + now rewrite E.
Qed.

Lemma get_update_other {V : Type} (d : Dict.t V) (k k' : string) (v : V) :
  k <> k' -> Dict.get (Dict.update d k v) k' = Dict.get d k'.
Proof.
  intros Hk. induction d as [|[k0 v0] d IH]; simpl.
  - apply String.eqb_neq in Hk. now rewrite Hk.
  - destruct (String.eqb k0 k) eqn:E; simpl.
    + apply String.eqb_eq in E. subst k0.
      apply String.eqb_neq in Hk. now rewrite Hk.
    + now rewrite IH.
Qed.

Lemma keys_update {V : Type} (d : Dict.t V) (k : string) (v : V) :
  Dict.keys (Dict.update d k v)
  = if in_dec string_dec k (Dict.keys d) then Dict.keys d else Dict.keys d ++ [k].
Proof.
  unfold Dict.keys. induction d as [|[k0 v0] d IH]; simpl; [reflexivity|].
  destruct (String.eqb k0 k) eqn:E.
  - apply String.eqb_eq in E. subst k0. simpl.
    destruct (string_dec k k); [|congruence].
    reflexivity.
  - apply String.eqb_neq in E. simpl. rewrite IH.
    destruct (string_dec k0 k); [congruence|].
    destruct (in_dec string_dec k (map fst d)); reflexivity.
Qed.

Lemma NoDup_keys_update {V : Type} (d : Dict.t V) (k : string) (v : V) :
  NoDup (Dict.keys d) -> NoDup (Dict.keys (Dict.update d k v)).
Proof.
  intros H. rewrite keys_update.
  destruct (in_dec string_dec k (Dict.keys d)) as [Hin|Hin]; [assumption|].
  apply NoDup_app; [assumption | repeat constructor; intros [] | ].
  intros a Ha [<-|[]]. contradiction.
Qed.

Lemma In_get {V : Type} (d : Dict.t V) (k : string) (v : V) :
  NoDup (Dict.keys d) -> In (k, v) d -> Dict.get d k = Some v.
Proof.
  unfold Dict.keys. induction d as [|[k0 v0] d IH]; simpl; intros Hnd Hin; [tauto|].
  inversion Hnd as [|? ? Hk0 Hnd']; subst.
  destruct Hin as [[= -> ->]|Hin].
  - now rewrite String.eqb_refl.
  - destruct (String.eqb k0 k) eqn:E.
    + apply String.eqb_eq in E. subst k0.
      exfalso. apply Hk0. now apply (in_map fst) in Hin.
    + now apply IH.
Qed.

(** ** The loop of parse_packages *)

Lemma unpack5_raise (l : list string) (e : exn) :
  unpack5 l = Raise e -> e = ValueError /\ length l <> 5.
Proof.
  destruct l as [|a [|b [|c [|d [|x [|y l]]]]]]; simpl; intros H;
    inversion H; split; (reflexivity || discriminate).
Qed.

Lemma unpack5_short (l : list string) : length l <> 5 -> unpack5 l = Raise ValueError.
Proof.
  destruct l as [|a [|b [|c [|d [|x [|y l]]]]]]; simpl; intros H;
    (reflexivity || congruence).
Qed.

(** The unpacking fails exactly on the names with fewer than four dashes
    before the extension. *)
Lemma split_fields_raise (pisi_file : string) :
  Py.count "-" (Py.split_head ".pisi" pisi_file) < 4 <->
  split_fields pisi_file = Raise ValueError.
Proof.
  unfold split_fields. split.
  - intros H. apply unpack5_short. rewrite length_rsplit. lia.
  - intros H. apply unpack5_raise in H. destruct H as [_ H].
    rewrite length_rsplit in H. lia.
Qed.

Lemma parse_file_raise (path pisi_file : string) (e : exn) :
  parse_file path pisi_file = Raise e ->
  e = ValueError /\ Py.count "-" (Py.split_head ".pisi" pisi_file) < 4.
Proof.
  unfold parse_file. destruct (split_fields pisi_file) as [[[[[n v] r] t] a]|e'] eqn:E.
  - destruct (parse_version _); discriminate.
  - intros [= ->]. unfold split_fields in E.
    destruct (unpack5_raise _ _ E) as [-> H]. split; [reflexivity|].
    apply split_fields_raise. unfold split_fields. now rewrite E.
Qed.

Lemma parse_file_short (path pisi_file : string) :
  Py.count "-" (Py.split_head ".pisi" pisi_file) < 4 ->
  parse_file path pisi_file = Raise ValueError.
Proof.
  intros H. apply split_fields_raise in H. unfold parse_file. now rewrite H.
Qed.

(** One file that cannot be unpacked keeps the loop from its end, wherever it
    is in the scan: the loop is left by its [ValueError], unless a log that
    cannot be written has ended it before. *)
Lemma parse_loop_short_aborts (pisi_files : list (string * string))
    (path pisi_file : string) :
  In (path, pisi_file) pisi_files ->
  Py.count "-" (Py.split_head ".pisi" pisi_file) < 4 ->
  forall pkgs log,
    exists e, snd (parse_loop pkgs log pisi_files) = Raise e /\
              (e = ValueError \/ e = OSError).
Proof.
  intros Hin Hshort.
  induction pisi_files as [|[p f] rest IH]; intros pkgs log; [destruct Hin|].
  cbn [parse_loop].
  destruct (parse_file p f) as [[n t a e|l]|e] eqn:E.
  - destruct Hin as [[= -> ->]|Hin]; [|now apply IH].
    rewrite parse_file_short in E by assumption. discriminate.
  - destruct Hin as [[= -> ->]|Hin].
    + rewrite parse_file_short in E by assumption. discriminate.
    + destruct (log_writable log); [now apply IH|].
      exists OSError. split; [reflexivity | now right].
  - apply parse_file_raise in E. destruct E as [-> _].
    exists ValueError. split; [reflexivity | now left].
Qed.

Lemma parse_loop_short (pisi_files : list (string * string)) (path pisi_file : string) :
  (forall log, log_writable log = true) ->
  In (path, pisi_file) pisi_files ->
  Py.count "-" (Py.split_head ".pisi" pisi_file) < 4 ->
  forall pkgs log, snd (parse_loop pkgs log pisi_files) = Raise ValueError.
Proof.
  intros Hlog Hin Hshort.
  induction pisi_files as [|[p f] rest IH]; intros pkgs log; [destruct Hin|].
  cbn [parse_loop].
  destruct (parse_file p f) as [[n t a e|l]|e] eqn:E.
  - destruct Hin as [[= -> ->]|Hin]; [|now apply IH].
    rewrite parse_file_short in E by assumption. discriminate.
  - rewrite Hlog. destruct Hin as [[= -> ->]|Hin]; [|now apply IH].
    rewrite parse_file_short in E by assumption. discriminate.
  - apply parse_file_raise in E. destruct E as [-> _]. reflexivity.
Qed.

(** A scan whose names can all be unpacked is parsed to its end when the log
    can be written. *)
Lemma parse_loop_ok (pisi_files : list (string * string)) :
  (forall log, log_writable log = true) ->
  (forall path pisi_file, In (path, pisi_file) pisi_files ->
     exists r, parse_file path pisi_file = Ok r) ->
  forall pkgs log, exists log' pkgs', parse_loop pkgs log pisi_files = (log', Ok pkgs').
Proof.
  intros Hlog.
  induction pisi_files as [|[p f] rest IH]; intros H pkgs log; cbn [parse_loop].
  - now exists log, pkgs.
  - destruct (H p f (or_introl eq_refl)) as [r ->].
    destruct r as [n t a e|l]; [|rewrite Hlog]; apply IH; intros; apply H; now right.
Qed.

Lemma get_add_entry (pkgs : packages) (name t a : string) (e : entry) (n : string) :
  Dict.get (add_entry pkgs name t a e) n
  = if String.eqb name n then merged (Dict.get pkgs name) [(t, a, e)]
    else Dict.get pkgs n.
Proof.
  unfold add_entry. destruct (String.eqb name n) eqn:E.
  - apply String.eqb_eq in E. subst n. rewrite get_update_same.
    unfold merged. simpl. destruct (Dict.get pkgs name); reflexivity.
  - apply String.eqb_neq in E. now apply get_update_other.
Qed.

Lemma merged_cons (o : option package) (x : string * string * entry)
    (l : list (string * string * entry)) :
  merged o (x :: l) = merged (merged o [x]) l.
Proof.
  destruct x as [[t a] e]. unfold merged at 1 3.
  cbn [rev]. destruct (rev l) as [|[[t' a'] e'] rl] eqn:E.
  - apply (f_equal (@rev _)) in E. rewrite rev_involutive in E. subst l.
    reflexivity.
  - cbn [app]. unfold merged. cbn [rev app map snd versions].
    rewrite E, <- app_assoc. reflexivity.
Qed.

(** Every package of the result holds the entries of its files in scan order,
    and the [pisi_version] and [arch] of the last of them. *)
Lemma parse_loop_get (pisi_files : list (string * string)) :
  forall pkgs log log' pkgs',
    parse_loop pkgs log pisi_files = (log', Ok pkgs') ->
    forall name,
      Dict.get pkgs' name = merged (Dict.get pkgs name) (entries_of name pisi_files).
Proof.
  induction pisi_files as [|[p f] rest IH]; intros pkgs log log' pkgs' H name.
  - cbn in H. inversion H; subst. reflexivity.
  - cbn [parse_loop] in H. unfold entries_of. cbn [flat_map].
    fold (entries_of name rest).
    destruct (parse_file p f) as [[n t a e|l]|e] eqn:E;
      [| destruct (log_writable log) eqn:Hw; [|discriminate] |discriminate].
    + rewrite (IH _ _ _ _ H name), get_add_entry.
      destruct (String.eqb n name) eqn:En.
      * apply String.eqb_eq in En. subst n.
        cbn [app]. symmetry. apply merged_cons.
      * reflexivity.
    + now rewrite (IH _ _ _ _ H name).
Qed.

Lemma parse_loop_NoDup (pisi_files : list (string * string)) :
  forall pkgs log log' pkgs',
    parse_loop pkgs log pisi_files = (log', Ok pkgs') ->
    NoDup (Dict.keys pkgs) -> NoDup (Dict.keys pkgs').
Proof.
  induction pisi_files as [|[p f] rest IH]; intros pkgs log log' pkgs' H Hnd.
  - cbn in H. inversion H; subst. assumption.
  - cbn [parse_loop] in H.
    destruct (parse_file p f) as [[n t a e|l]|e] eqn:E;
      [| destruct (log_writable log) eqn:Hw; [|discriminate] |discriminate].
    + apply (IH _ _ _ _ H). now apply NoDup_keys_update.
    + now apply (IH _ _ _ _ H).
Qed.

Lemma In_entries_of (name : string) (pisi_files : list (string * string))
    (t a : string) (e : entry) :
  In (t, a, e) (entries_of name pisi_files) <->
  exists path pisi_file,
    In (path, pisi_file) pisi_files /\
    parse_file path pisi_file = Ok (Parsed name t a e).
Proof.
  unfold entries_of. rewrite in_flat_map. split.
  - intros [[p f] [Hin H]].
    destruct (parse_file p f) as [[n t' a' e'|l]|e'] eqn:E; try destruct H.
    destruct (String.eqb n name) eqn:En; [|destruct H].
    apply String.eqb_eq in En. subst n.
    destruct H as [[= <- <- <-]|[]]. now exists p, f.
  - intros (p & f & Hin & H). exists (p, f). split; [assumption|].
    rewrite H, String.eqb_refl. now left.
Qed.

(** ** The ranking *)

Lemma insert_newest_first_perm (x : entry) (l : list entry) :
  Permutation (insert_newest_first x l) (x :: l).
Proof.
  induction l as [|y l IH]; simpl; [reflexivity|].
  destruct (version_lt (comparable_version x) (comparable_version y)).
  - rewrite IH. apply perm_swap.
  - reflexivity.
Qed.

Lemma sorted_newest_first_perm (l : list entry) :
  Permutation (sorted_newest_first l) l.
Proof.
  induction l as [|x l IH]; simpl; [reflexivity|].
  rewrite insert_newest_first_perm. now constructor.
Qed.

Lemma In_sorted_newest_first (l : list entry) (e : entry) :
  In e (sorted_newest_first l) <-> In e l.
Proof.
  split; apply Permutation_in;
    [apply sorted_newest_first_perm | symmetry; apply sorted_newest_first_perm].
Qed.

Lemma length_sorted_newest_first (l : list entry) :
  length (sorted_newest_first l) = length l.
Proof. apply Permutation_length, sorted_newest_first_perm. Qed.

Lemma slice_from_nonneg {A : Type} (k : Z) (l : list A) :
  (0 <= k)%Z -> Py.slice_from k l = skipn (Z.to_nat k) l.
Proof. intros H. unfold Py.slice_from. apply Z.leb_le in H. now rewrite H. Qed.

Lemma In_skipn {A : Type} (n : nat) (l : list A) (x : A) :
  In x (skipn n l) -> In x l.
Proof.
  intros H. rewrite <- (firstn_skipn n l). apply in_or_app. now right.
Qed.

Lemma In_slice_from {A : Type} (k : Z) (l : list A) (x : A) :
  In x (Py.slice_from k l) -> In x l.
Proof.
  unfold Py.slice_from. destruct (0 <=? k)%Z; apply In_skipn.
Qed.

Lemma In_redundant_versions (count : Z) (meta : package) (e : entry) :
  In e (redundant_versions count meta) -> In e (versions meta).
Proof.
  unfold redundant_versions. intros H. apply In_slice_from in H.
  now apply In_sorted_newest_first.
Qed.

Section StrictWeakOrder.

Hypothesis lt_asym : lt_asymmetric.
Hypothesis lt_negtrans : lt_negatively_transitive.

Lemma lt_irrefl (a : Version) : version_lt a a = false.
Proof.
  destruct (version_lt a a) eqn:E; [|reflexivity].
  now rewrite (lt_asym _ _ E) in E.
Qed.

Lemma same_rank_trans (k x y : entry) :
  same_rank k x = true -> same_rank k y = true -> same_rank x y = true.
Proof.
  unfold same_rank. rewrite !andb_true_iff, !negb_true_iff.
  intros [Hkx Hxk] [Hky Hyk]. split; eapply lt_negtrans; eassumption.
Qed.

Lemma same_rank_refl (x : entry) : same_rank x x = true.
Proof. unfold same_rank. now rewrite lt_irrefl. Qed.

Lemma insert_newest_first_sorted (x : entry) (l : list entry) :
  newest_first l -> newest_first (insert_newest_first x l).
Proof.
  unfold newest_first. induction 1 as [|y l Hl IH Hy]; simpl.
  - repeat constructor.
  - destruct (version_lt (comparable_version x) (comparable_version y)) eqn:E.
    + constructor; [assumption|].
      rewrite Forall_forall in *. intros z Hz.
      apply (Permutation_in _ (insert_newest_first_perm x l)) in Hz.
      destruct Hz as [<-|Hz]; [now apply lt_asym | now apply Hy].
    + constructor; [now constructor|].
      constructor; [assumption|].
      rewrite Forall_forall in *. intros z Hz.
      eapply lt_negtrans; [exact E | now apply Hy].
Qed.

Lemma sorted_newest_first_sorted (l : list entry) :
  newest_first (sorted_newest_first l).
Proof.
  induction l as [|x l IH]; simpl; [constructor|].
  now apply insert_newest_first_sorted.
Qed.

Lemma insert_newest_first_stable (k x : entry) (l : list entry) :
  filter (same_rank k) (insert_newest_first x l) = filter (same_rank k) (x :: l).
Proof.
  induction l as [|y l IH]; [reflexivity|].
  cbn [insert_newest_first].
  destruct (version_lt (comparable_version x) (comparable_version y)) eqn:E;
    [|reflexivity].
  cbn [filter] in *. rewrite IH.
  destruct (same_rank k x) eqn:Ex, (same_rank k y) eqn:Ey; try reflexivity.
  pose proof (same_rank_trans _ _ _ Ex Ey) as H.
  unfold same_rank in H. rewrite E in H. discriminate.
Qed.

Lemma sorted_newest_first_stable (l : list entry) :
  stable_for l (sorted_newest_first l).
Proof.
  intros k. induction l as [|x l IH]; [reflexivity|].
  cbn [sorted_newest_first fold_right].
  rewrite insert_newest_first_stable. cbn [filter].
  fold (sorted_newest_first l). now rewrite IH.
Qed.

(** Two rankings of the same entries that keep the same order among entries
    of equal rank are the same list. *)
Lemma newest_first_unique (l1 : list entry) :
  forall l2,
    Permutation l1 l2 -> newest_first l1 -> newest_first l2 ->
    (forall k, filter (same_rank k) l1 = filter (same_rank k) l2) ->
    l1 = l2.
Proof.
  induction l1 as [|a l1 IH]; intros l2 Hp H1 H2 Hf.
  - now apply Permutation_nil in Hp.
  - destruct l2 as [|b l2]; [symmetry in Hp; now apply Permutation_nil in Hp|].
    inversion H1 as [|? ? H1' Ha]; subst.
    inversion H2 as [|? ? H2' Hb]; subst.
    rewrite Forall_forall in Ha, Hb.
    assert (Hab : version_lt (comparable_version a) (comparable_version b) = false).
    { assert (Hin : In b (a :: l1))
        by (apply (Permutation_in _ (Permutation_sym Hp)); now left).
      destruct Hin as [->|Hin]; [apply lt_irrefl | now apply Ha]. }
    assert (Hba : version_lt (comparable_version b) (comparable_version a) = false).
    { assert (Hin : In a (b :: l2)) by (apply (Permutation_in _ Hp); now left).
      destruct Hin as [->|Hin]; [apply lt_irrefl | now apply Hb]. }
    assert (a = b).
    { specialize (Hf a). cbn [filter] in Hf.
      rewrite same_rank_refl in Hf.
      unfold same_rank at 2 in Hf. rewrite Hab, Hba in Hf.
      cbn in Hf. congruence. }
    subst b. f_equal. apply IH; try assumption.
    + now apply Permutation_cons_inv in Hp.
    + intros k. specialize (Hf k). cbn [filter] in Hf.
      destruct (same_rank k a); congruence.
Qed.

End StrictWeakOrder.

(** ** Properties of the parser and of the selection *)

(** C3.  Three entries of a package with the versions 1.2.0, 1.10.0 and
    1.9.0, all of revision 1, are ranked 1.10.0, 1.9.0, 1.2.0 when versions
    made of numbers are compared by value; the strings ["9"] and ["10"]
    compare the other way round. *)
Theorem ranking_is_numeric (e1 e2 e3 : entry) :
  numeric_versions_by_value ->
  version e1 = Py.split "." "1.2.0" ++ ["1"] ->
  version e2 = Py.split "." "1.10.0" ++ ["1"] ->
  version e3 = Py.split "." "1.9.0" ++ ["1"] ->
  (forall e, In e [e1; e2; e3] ->
     parse_version (Py.join "." (version e)) = Some (comparable_version e)) ->
  sorted_newest_first [e1; e2; e3] = [e2; e3; e1] /\
  String.ltb "9" "10" = false.
Proof.
  intros Hnum H1 H2 H3 Hcv. split; [|reflexivity].
  assert (P1 := Hcv e1 (or_introl eq_refl)).
  assert (P2 := Hcv e2 (or_intror (or_introl eq_refl))).
  assert (P3 := Hcv e3 (or_intror (or_intror (or_introl eq_refl)))).
  rewrite H1 in P1. rewrite H2 in P2. rewrite H3 in P3.
  assert (R1 : Release.parse (Py.join "." (Py.split "." "1.2.0" ++ ["1"]))
               = Some [1; 2; 0; 1]%N) by reflexivity.
  assert (R2 : Release.parse (Py.join "." (Py.split "." "1.10.0" ++ ["1"]))
               = Some [1; 10; 0; 1]%N) by reflexivity.
  assert (R3 : Release.parse (Py.join "." (Py.split "." "1.9.0" ++ ["1"]))
               = Some [1; 9; 0; 1]%N) by reflexivity.
  pose proof (Hnum _ _ _ _ _ _ P2 P3 R2 R3) as L23.
  pose proof (Hnum _ _ _ _ _ _ P1 P2 R1 R2) as L12.
  pose proof (Hnum _ _ _ _ _ _ P1 P3 R1 R3) as L13.
  cbn in L23, L12, L13.
  cbn [sorted_newest_first fold_right insert_newest_first].
  rewrite L23. cbn [insert_newest_first]. rewrite L12, L13. reflexivity.
Qed.

(** A package that has a value got it from its entries: the last one gave the
    [pisi_version] and the [arch], all of them the versions. *)
Lemma merged_inv (l : list (string * string * entry)) (meta : package) :
  merged None l = Some meta ->
  exists earlier pisi_version' arch' e,
    l = earlier ++ [(pisi_version', arch', e)] /\
    pisi_version meta = pisi_version' /\
    arch meta = arch' /\
    versions meta = map snd l.
Proof.
  unfold merged. intros H.
  destruct (rev l) as [|[[t a] e] r] eqn:E; [discriminate|].
  apply (f_equal (@rev _)) in E. rewrite rev_involutive in E. cbn [rev] in E.
  exists (rev r), t, a, e. inversion H; subst meta. cbn. now rewrite E.
Qed.

(** C5.  After the scan a package holds the [pisi_version] and the [arch] of
    the last of its files in scan order, whatever the files before it said,
    and its versions are the entries of all its files in scan order. *)
Theorem group_keeps_last_tool_and_arch (pisi_files : list (string * string))
    (log : list log_line) (pkgs : packages) (name : string) (meta : package) :
  parse_packages pisi_files = (log, Ok pkgs) ->
  Dict.get pkgs name = Some meta ->
  exists earlier pisi_version' arch' e,
    entries_of name pisi_files = earlier ++ [(pisi_version', arch', e)] /\
    pisi_version meta = pisi_version' /\
    arch meta = arch' /\
    versions meta = map snd (entries_of name pisi_files).
Proof.
  intros Hparse Hget. unfold parse_packages in Hparse.
  pose proof (parse_loop_get _ _ _ _ _ Hparse name) as Hgroup.
  cbn [Dict.get] in Hgroup.
  rewrite Hget in Hgroup. symmetry in Hgroup.
  destruct (merged_inv _ _ Hgroup) as (earlier & t & a & e & Hl & Ht & Ha & Hvs).
  now exists earlier, t, a, e.
Qed.

(** C6.  On versions that [<] orders as a strict weak order the ranking is
    the stable sort, newest first: it permutes the entries, no entry is
    followed by a newer one, and entries of equal rank keep the order of the
    scan.  There is only one such list, so whatever stable sort ranks the
    groups the discard list is the same, and the selection is a function of
    the package map: two runs on the same map give the same list. *)
Theorem ranking_is_stable_and_determined :
  lt_asymmetric -> lt_negatively_transitive ->
  (forall l,
     Permutation (sorted_newest_first l) l /\
     newest_first (sorted_newest_first l) /\
     stable_for l (sorted_newest_first l)) /\
  (forall l ranked,
     Permutation ranked l -> newest_first ranked -> stable_for l ranked ->
     ranked = sorted_newest_first l) /\
  (forall rank : list entry -> list entry,
     (forall l, Permutation (rank l) l /\ newest_first (rank l) /\
                stable_for l (rank l)) ->
     forall count pkgs,
       flat_map
         (fun '(name, meta) =>
            map (fun v => Py.os_path_join (path v) (format_pisi_file name meta v))
                (Py.slice_from count (rank (versions meta))))
         pkgs
       = find_redundant count pkgs) /\
  (forall count pkgs first second,
     first = find_redundant count pkgs -> second = find_redundant count pkgs ->
     first = second).
Proof.
  intros Ha Ht.
  assert (Hunique : forall l ranked,
             Permutation ranked l -> newest_first ranked -> stable_for l ranked ->
             ranked = sorted_newest_first l).
  { intros l ranked Hp Hs Hst.
    apply newest_first_unique; try assumption.
    - rewrite Hp. symmetry. apply sorted_newest_first_perm.
    - now apply sorted_newest_first_sorted.
    - intros k. rewrite (Hst k). symmetry.
      now apply sorted_newest_first_stable. }
  split; [|split; [|split]].
  - intros l. split; [apply sorted_newest_first_perm|].
    split; [now apply sorted_newest_first_sorted
           | now apply sorted_newest_first_stable].
  - exact Hunique.
  - intros rank Hrank count pkgs. unfold find_redundant, redundant_versions.
    induction pkgs as [|[name meta] pkgs IH]; [reflexivity|].
    cbn [flat_map]. rewrite IH. f_equal.
    destruct (Hrank (versions meta)) as (Hp & Hs & Hst).
    now rewrite (Hunique (versions meta) (rank (versions meta)) Hp Hs Hst).
  - intros count pkgs first second -> ->. reflexivity.
Qed.

(** C10.  The extension is cut at the first [".pisi"] of the name: the fields
    come from the text before it, whatever follows.  When [".pisi"] occurs
    before the extension at the end, the fields are never those of the name
    without that last extension. *)
Theorem fields_come_before_first_extension (pre rest : string) :
  Py.contains ".pisi" pre = false ->
  Py.split_head ".pisi" (pre ++ ".pisi" ++ rest) = pre /\
  split_fields (pre ++ ".pisi" ++ rest) = unpack5 (Py.rsplit "-" 4 pre) /\
  (forall path, parse_file path (pre ++ ".pisi" ++ rest) = Raise ValueError <->
                Py.count "-" pre < 4) /\
  (forall middle fields,
     rest = (middle ++ ".pisi")%string ->
     unpack5 (Py.rsplit "-" 4 (pre ++ ".pisi" ++ middle)) = Ok fields ->
     split_fields (pre ++ ".pisi" ++ rest) <> Ok fields).
Proof.
  intros Hpre. pose proof (split_head_first pre rest Hpre) as Hhead.
  split; [assumption|]. split; [unfold split_fields; now rewrite Hhead|].
  split.
  - intros path. rewrite <- Hhead at 2. split.
    + intros H. now apply parse_file_raise in H.
    + apply parse_file_short.
  - intros middle fields -> Hlong Hshort.
    unfold split_fields in Hshort. rewrite Hhead in Hshort.
    pose proof (join_rsplit "-" 4 pre) as J1.
    pose proof (join_rsplit "-" 4 (pre ++ ".pisi" ++ middle)) as J2.
    destruct (Py.rsplit "-" 4 pre) as [|a [|b [|c [|d [|x [|y l]]]]]];
      try discriminate.
    destruct (Py.rsplit "-" 4 (pre ++ ".pisi" ++ middle))
      as [|a' [|b' [|c' [|d' [|x' [|y' l']]]]]]; try discriminate.
    cbn [unpack5] in Hlong, Hshort.
    assert (Heq : [a; b; c; d; x] = [a'; b'; c'; d'; x']) by congruence.
    rewrite Heq in J1. rewrite J1 in J2.
    apply (f_equal String.length) in J2.
    rewrite length_append in J2. cbn in J2. lia.
Qed.

(** What a well-formed archive of the scan becomes. *)
Lemma parse_file_archive_parsed (x : archive) (name t a : string) (e : entry) :
  well_formed x = true ->
  parse_file (a_path x) (archive_file x) = Ok (Parsed name t a e) ->
  name = a_name x /\ t = a_tool x /\ a = a_arch x /\
  path e = a_path x /\
  forall vs, format_pisi_file name (Package t a vs) e = archive_file x.
Proof.
  intros Hwf H. rewrite parse_file_archive in H by assumption.
  destruct (parse_version (Py.join "." (archive_tuple x))) as [v|]; [|discriminate].
  inversion H; subst. repeat split; try reflexivity.
  intros vs. apply format_pisi_file_archive.
Qed.

Lemma In_find_redundant (count : Z) (pkgs : packages) (p : string) :
  In p (find_redundant count pkgs) ->
  exists name meta e,
    In (name, meta) pkgs /\ In e (versions meta) /\
    p = Py.os_path_join (path e) (format_pisi_file name meta e).
Proof.
  unfold find_redundant. rewrite in_flat_map.
  intros [[name meta] [Hin H]]. rewrite in_map_iff in H.
  destruct H as [e [<- He]]. exists name, meta, e.
  split; [assumption|]. split; [|reflexivity].
  now apply In_redundant_versions in He.
Qed.

(** ** Removing the files *)

Lemma remove_excess_app (l1 l2 : list string) (w : world) :
  remove_excess (l1 ++ l2) w
  = match remove_excess l1 w with
    | (Ok _, w') => remove_excess l2 w'
    | (Raise e, w') => (Raise e, w')
    end.
Proof.
  revert w. induction l1 as [|p l1 IH]; intros w; [reflexivity|].
  cbn [app remove_excess]. unfold bind.
  destruct (os_remove p w) as [[[]|e] w1]; [apply IH | reflexivity].
Qed.

Lemma os_remove_fails (p : string) (w : world) :
  ~ In p (removable w) -> os_remove p w = (Raise OSError, w).
Proof.
  intros H. unfold os_remove.
  destruct (in_dec string_dec p (removable w)); [contradiction | reflexivity].
Qed.

Lemma os_remove_removable (p q : string) (w : world) :
  In q (removable (snd (os_remove p w))) -> In q (removable w) /\
  (fst (os_remove p w) = Ok tt -> q <> p).
Proof.
  unfold os_remove.
  destruct (in_dec string_dec p (removable w)) as [Hin|Hin]; cbn.
  - intros H. apply in_remove in H. destruct H as [H Hne]. now split.
  - intros H. split; [assumption | discriminate].
Qed.

Lemma remove_excess_removable (l : list string) (q : string) :
  forall w, In q (removable (snd (remove_excess l w))) -> In q (removable w).
Proof.
  induction l as [|p l IH]; intros w; [trivial|].
  cbn [remove_excess]. unfold bind.
  destruct (os_remove p w) as [[[]|e] w1] eqn:E.
  - intros H. apply IH in H.
    replace w1 with (snd (os_remove p w)) in H by now rewrite E.
    now apply os_remove_removable in H.
  - cbn. intros H.
    replace w1 with (snd (os_remove p w)) in H by now rewrite E.
    now apply os_remove_removable in H.
Qed.

(** C7.  [remove_excess] has no handler around [os.remove]: the first file
    that cannot be removed ends the pass with its [OSError], in the state the
    files before it have left, and no later file is removed.  When the pass
    comes to its end, every file of the list is gone. *)
Theorem remove_excess_stops_at_first_failure (before after : list string)
    (p : string) (w w' : world) :
  remove_excess before w = (Ok tt, w') ->
  ~ In p (removable w') ->
  remove_excess (before ++ p :: after) w = (Raise OSError, w') /\
  (forall old w0,
     fst (remove_excess old w0) = Ok tt ->
     forall q, In q old -> ~ In q (removable (snd (remove_excess old w0)))).
Proof.
  intros Hbefore Hp. split.
  - rewrite remove_excess_app, Hbefore. cbn [remove_excess]. unfold bind.
    now rewrite os_remove_fails.
  - intros old. induction old as [|q0 old IH]; intros w0 Hok q Hq; [destruct Hq|].
    cbn [remove_excess] in *. unfold bind in *.
    destruct (os_remove q0 w0) as [[[]|e] w1] eqn:E; [|discriminate].
    destruct Hq as [->|Hq]; [|now apply IH].
    intros Hin. apply remove_excess_removable in Hin.
    replace w1 with (snd (os_remove q w0)) in Hin by now rewrite E.
    apply os_remove_removable in Hin. destruct Hin as [_ Hne].
    apply Hne; [now rewrite E | reflexivity].
Qed.

(** ** The script *)

Lemma confirm_zero_count_proceeds (args : arguments) (w : world) :
  proceeds args w -> confirm_zero_count args w = (Ok tt, after_zero_count args w).
Proof.
  unfold proceeds, confirm_zero_count, after_zero_count, when, bind, yes_no_prompt.
  intros [H|H].
  - apply Z.eqb_neq in H. rewrite H. reflexivity.
  - destruct (count args =? 0)%Z; [|reflexivity].
    destruct (read_answer (stdin w)) as [r rest]. cbn in H. subst r. reflexivity.
Qed.

Lemma confirm_zero_count_declined (args : arguments) (w : world) :
  count args = 0%Z -> fst (read_answer (stdin w)) = Ok false ->
  confirm_zero_count args w
  = (Raise (SystemExit 0),
     World (snd (read_answer (stdin w))) (fs_exists w) (fs_isdir w) (fs_walk w)
           (removable w) (events w ++ [Prompted zero_count_message false])).
Proof.
  unfold confirm_zero_count, when, bind, yes_no_prompt. intros -> H.
  cbn [Z.eqb]. destruct (read_answer (stdin w)) as [r rest].
  cbn in H. subst r. reflexivity.
Qed.

(** [clean] as one case analysis on what it finds. *)
Lemma clean_unfold (args : arguments) (w : world) :
  clean args w
  = if negb (fs_exists w (directory args)) then (Raise (SystemExit (-1)), w)
    else if negb (fs_isdir w (directory args)) then (Raise (SystemExit (-2)), w)
    else
      let pisi_files := find_pisi_files (fs_walk w (directory args)) in
      if is_empty pisi_files then (Raise (SystemExit 1), w)
      else
        let w1 := World (stdin w) (fs_exists w) (fs_isdir w) (fs_walk w) (removable w)
                        (events w ++ map Logged (fst (parse_packages pisi_files))) in
        match snd (parse_packages pisi_files) with
        | Raise e => (Raise e, w1)
        | Ok pkgs =>
            if is_empty pkgs then (Raise (SystemExit (-3)), w1)
            else
              let redundant := find_redundant (count args) pkgs in
              if is_empty redundant then (Raise (SystemExit 0), w1)
              else
                let message := remove_message (length redundant) in
                let rest := snd (read_answer (stdin w)) in
                match fst (read_answer (stdin w)) with
                | Raise e =>
                    (Raise e,
                     World rest (fs_exists w) (fs_isdir w) (fs_walk w) (removable w)
                           (events w1))
                | Ok ok =>
                    let w2 := World rest (fs_exists w) (fs_isdir w) (fs_walk w)
                                    (removable w)
                                    (events w1 ++ [Prompted message ok]) in
                    if ok then remove_excess redundant w2 else (Ok tt, w2)
                end
        end.
Proof.
  unfold clean, bind, when, os_path_exists, os_path_isdir, scan_repository,
    parse_packages_io, exit, raise, ret, yes_no_prompt.
  destruct (fs_exists w (directory args)); cbn [negb]; [|reflexivity].
  destruct (fs_isdir w (directory args)); cbn [negb]; [|reflexivity].
  destruct (find_pisi_files (fs_walk w (directory args))) as [|f files];
    [reflexivity|].
  cbn [is_empty].
  destruct (parse_packages (f :: files)) as [log [pkgs|e]]; [|reflexivity].
  cbn [fst snd].
  destruct pkgs as [|pkg pkgs]; [reflexivity|].
  cbn [is_empty].
  destruct (find_redundant (count args) (pkg :: pkgs)) as [|p ps]; [reflexivity|].
  cbn [is_empty stdin fs_exists fs_isdir fs_walk removable events].
  destruct (read_answer (stdin w)) as [[[|]|e] rest]; reflexivity.
Qed.

Lemma main_proceeds (args : arguments) (w : world) :
  proceeds args w -> main args w = clean args (after_zero_count args w).
Proof.
  intros H. unfold main, bind. now rewrite confirm_zero_count_proceeds.
Qed.

Lemma after_zero_count_fs (args : arguments) (w : world) :
  fs_exists (after_zero_count args w) = fs_exists w /\
  fs_isdir (after_zero_count args w) = fs_isdir w /\
  fs_walk (after_zero_count args w) = fs_walk w /\
  removable (after_zero_count args w) = removable w.
Proof. unfold after_zero_count. destruct (count args =? 0)%Z; now cbn. Qed.

Lemma parse_packages_nil : parse_packages [] = ([], Ok []).
Proof. reflexivity. Qed.

Lemma remove_excess_ok (l : list string) :
  forall w, NoDup l -> incl l (removable w) -> fst (remove_excess l w) = Ok tt.
Proof.
  induction l as [|p l IH]; intros w Hnd Hincl; [reflexivity|].
  cbn [remove_excess]. unfold bind, os_remove.
  destruct (in_dec string_dec p (removable w)) as [Hin|Hin].
  - inversion Hnd as [|? ? Hp Hnd']; subst.
    apply IH; [assumption|]. cbn [removable].
    intros q Hq. apply in_in_remove.
    + intros ->. contradiction.
    + apply Hincl. now right.
  - exfalso. apply Hin, Hincl. now left.
Qed.

(** C1.  A scan that holds a name with fewer than four dashes before its
    extension is not parsed to the end: the unpacking of line 101 is outside
    the [try], and [parse_packages] is left by an exception whatever the
    other names are, as is the script once it has scanned such a directory.
    The exception is the [ValueError] of the unpacking; only a log that could
    not be written for a file before it can end the loop sooner, with its
    [OSError]. *)
Theorem short_name_aborts_the_run (pisi_files : list (string * string))
    (path pisi_file : string) :
  In (path, pisi_file) pisi_files ->
  Py.count "-" (Py.split_head ".pisi" pisi_file) < 4 ->
  (exists e,
     snd (parse_packages pisi_files) = Raise e /\
     (e = ValueError \/ e = OSError) /\
     forall args w,
       proceeds args w ->
       fs_exists w (directory args) = true ->
       fs_isdir w (directory args) = true ->
       find_pisi_files (fs_walk w (directory args)) = pisi_files ->
       fst (main args w) = Raise e) /\
  ((forall log, log_writable log = true) ->
   snd (parse_packages pisi_files) = Raise ValueError /\
   (forall args w,
      proceeds args w ->
      fs_exists w (directory args) = true ->
      fs_isdir w (directory args) = true ->
      find_pisi_files (fs_walk w (directory args)) = pisi_files ->
      fst (main args w) = Raise ValueError)).
Proof.
  intros Hin Hshort.
  assert (Hmain : forall e,
             snd (parse_packages pisi_files) = Raise e ->
             forall args w,
               proceeds args w ->
               fs_exists w (directory args) = true ->
               fs_isdir w (directory args) = true ->
               find_pisi_files (fs_walk w (directory args)) = pisi_files ->
               fst (main args w) = Raise e).
  { intros e Hparse args w Hgo Hexists Hisdir Hscan.
    rewrite main_proceeds by assumption. rewrite clean_unfold.
    destruct (after_zero_count_fs args w) as (-> & -> & -> & _).
    rewrite Hexists, Hisdir, Hscan. cbn [negb]. cbv zeta.
    destruct pisi_files as [|f files]; [destruct Hin|].
    cbn [is_empty]. rewrite Hparse. reflexivity. }
  split.
  - destruct (parse_loop_short_aborts pisi_files path pisi_file Hin Hshort [] [])
      as (e & Hparse & He).
    exists e. split; [exact Hparse|]. split; [exact He|]. now apply Hmain.
  - intros Hlog.
    assert (Hparse : snd (parse_packages pisi_files) = Raise ValueError)
      by now apply (parse_loop_short pisi_files path pisi_file).
    split; [exact Hparse | now apply Hmain].
Qed.

(** C8.  How the script ends.  A count of 0 that is not confirmed ends it
    with [exit(0)] before anything is looked at.  Once that question is passed
    (the count is not 0, or it has been confirmed) the script calls
    [exit(-1)] when the directory does not exist, [exit(-2)] when it is not a
    directory, [exit(1)] when the scan finds no archive, [exit(-3)] when
    [parse_packages] returns no package and [exit(0)] when nothing is
    redundant; it comes to its end when the removal is declined and when the
    confirmed removal goes through.  The status of the process is the
    argument of [exit] modulo 256: 255, 254, 1, 253 and 0. *)
Theorem exit_codes (args : arguments) (w : world) :
  let outcome := fst (main args w) in
  let status := exit_status outcome in
  let dir := directory args in
  let pisi_files := find_pisi_files (fs_walk w dir) in
  (count args = 0%Z -> fst (read_answer (stdin w)) = Ok false ->
   outcome = Raise (SystemExit 0) /\ status = 0%Z) /\
  (proceeds args w ->
   (fs_exists w dir = false ->
    outcome = Raise (SystemExit (-1)) /\ status = 255%Z) /\
   (fs_exists w dir = true -> fs_isdir w dir = false ->
    outcome = Raise (SystemExit (-2)) /\ status = 254%Z) /\
   (fs_exists w dir = true -> fs_isdir w dir = true ->
    (pisi_files = [] -> outcome = Raise (SystemExit 1) /\ status = 1%Z) /\
    (pisi_files <> [] -> snd (parse_packages pisi_files) = Ok [] ->
     outcome = Raise (SystemExit (-3)) /\ status = 253%Z) /\
    (forall pkgs,
       snd (parse_packages pisi_files) = Ok pkgs -> pkgs <> [] ->
       let redundant := find_redundant (count args) pkgs in
       let answer := fst (read_answer (stdin (after_zero_count args w))) in
       (redundant = [] -> outcome = Raise (SystemExit 0) /\ status = 0%Z) /\
       (redundant <> [] -> answer = Ok false -> outcome = Ok tt /\ status = 0%Z) /\
       (redundant <> [] -> answer = Ok true ->
        NoDup redundant -> incl redundant (removable w) ->
        outcome = Ok tt /\ status = 0%Z)))).
Proof.
  intros outcome status dir pisi_files. unfold status, outcome. split.
  - intros H0 Hno. unfold main, bind.
    rewrite confirm_zero_count_declined by assumption. split; reflexivity.
  - intros Hgo. rewrite main_proceeds by assumption.
    rewrite clean_unfold.
    destruct (after_zero_count_fs args w) as (-> & -> & -> & Hrm).
    fold dir. fold pisi_files.
    split; [intros ->; split; reflexivity|].
    split; [intros -> ->; split; reflexivity|].
    intros -> ->. cbn [negb].
    split; [intros ->; split; reflexivity|].
    split.
    + intros Hne ->. destruct pisi_files; [congruence|]. split; reflexivity.
    + intros pkgs Hparse Hpkgs.
      assert (Hfiles : is_empty pisi_files = false).
      { destruct pisi_files; [|reflexivity].
        rewrite parse_packages_nil in Hparse. cbn in Hparse. congruence. }
      rewrite Hfiles, Hparse.
      assert (Hp : is_empty pkgs = false).
      { destruct pkgs; [now exfalso; apply Hpkgs | reflexivity]. }
      rewrite Hp.
      split; [intros ->; split; reflexivity|].
      split.
      * intros Hne ->.
        destruct (find_redundant (count args) pkgs); [congruence|].
        split; reflexivity.
      * intros Hne -> Hnd Hincl.
        destruct (find_redundant (count args) pkgs) as [|p ps] eqn:E; [congruence|].
        cbn [is_empty]. rewrite remove_excess_ok; [split; reflexivity|assumption|].
        cbn [removable]. now rewrite Hrm.
Qed.

(** ** The record of a run *)

Lemma remove_excess_trace (l : list string) :
  forall w, exists removed,
    events (snd (remove_excess l w)) = events w ++ map Removed removed.
Proof.
  induction l as [|p l IH]; intros w.
  - exists []. cbn. now rewrite app_nil_r.
  - cbn [remove_excess]. unfold bind, os_remove.
    destruct (in_dec string_dec p (removable w)).
    + match goal with
      | |- context [remove_excess l ?w1] => destruct (IH w1) as [removed H]
      end.
      exists (p :: removed). rewrite H. cbn [events map].
      now rewrite <- app_assoc.
    + exists []. cbn. now rewrite app_nil_r.
Qed.

Lemma forallb_not_removed_Logged (log : list log_line) :
  forallb not_removed (map Logged log) = true.
Proof. induction log; [reflexivity | assumption]. Qed.

(** What [clean] adds to the record: nothing is removed before the question
    about the removal has been answered with yes. *)
Lemma clean_trace (args : arguments) (w : world) :
  exists pre tail,
    events (snd (clean args w)) = events w ++ pre ++ tail /\
    forallb not_removed pre = true /\
    ((tail = [] /\ removable (snd (clean args w)) = removable w) \/
     (exists n removed, tail = Prompted (remove_message n) true :: map Removed removed)).
Proof.
  rewrite clean_unfold.
  destruct (negb (fs_exists w (directory args))).
  { exists [], []. cbn. rewrite app_nil_r. auto. }
  destruct (negb (fs_isdir w (directory args))).
  { exists [], []. cbn. rewrite app_nil_r. auto. }
  cbv zeta.
  set (pisi_files := find_pisi_files (fs_walk w (directory args))).
  destruct (is_empty pisi_files).
  { exists [], []. cbn. rewrite app_nil_r. auto. }
  set (log := fst (parse_packages pisi_files)).
  destruct (snd (parse_packages pisi_files)) as [pkgs|e].
  2:{ exists (map Logged log), []. cbn. rewrite app_nil_r.
      auto using forallb_not_removed_Logged. }
  destruct (is_empty pkgs).
  { exists (map Logged log), []. cbn. rewrite app_nil_r.
    auto using forallb_not_removed_Logged. }
  set (redundant := find_redundant (count args) pkgs).
  destruct (is_empty redundant).
  { exists (map Logged log), []. cbn. rewrite app_nil_r.
    auto using forallb_not_removed_Logged. }
  destruct (fst (read_answer (stdin w))) as [[|]|e].
  - match goal with
    | |- context [remove_excess redundant ?w2] =>
        destruct (remove_excess_trace redundant w2) as [removed H]
    end.
    exists (map Logged log),
      (Prompted (remove_message (length redundant)) true :: map Removed removed).
    rewrite H. cbn [events]. rewrite <- !app_assoc.
    split; [reflexivity|]. split; [apply forallb_not_removed_Logged|].
    right. now exists (length redundant), removed.
  - exists (map Logged log ++ [Prompted (remove_message (length redundant)) false]), [].
    cbn [snd events removable]. rewrite app_nil_r, <- app_assoc.
    split; [reflexivity|]. split; [|now left].
    rewrite forallb_app, forallb_not_removed_Logged. reflexivity.
  - exists (map Logged log), []. cbn. rewrite app_nil_r.
    auto using forallb_not_removed_Logged.
Qed.

Lemma confirm_zero_count_raise (args : arguments) (w : world) (e : exn) :
  count args = 0%Z -> fst (read_answer (stdin w)) = Raise e ->
  confirm_zero_count args w
  = (Raise e,
     World (snd (read_answer (stdin w))) (fs_exists w) (fs_isdir w) (fs_walk w)
           (removable w) (events w)).
Proof.
  unfold confirm_zero_count, when, bind, yes_no_prompt. intros -> H.
  cbn [Z.eqb]. destruct (read_answer (stdin w)) as [r rest].
  cbn in H. subst r. reflexivity.
Qed.

Lemma main_trace (args : arguments) (w : world) :
  exists pre tail,
    events (snd (main args w)) = events w ++ pre ++ tail /\
    forallb not_removed pre = true /\
    ((tail = [] /\ removable (snd (main args w)) = removable w) \/
     (exists n removed,
        tail = Prompted (remove_message n) true :: map Removed removed /\
        (count args = 0%Z -> In (Prompted zero_count_message true) pre))).
Proof.
  destruct (Z.eq_dec (count args) 0) as [H0|H0].
  - destruct (fst (read_answer (stdin w))) as [[|]|e] eqn:Ea.
    + rewrite main_proceeds by now right.
      destruct (clean_trace args (after_zero_count args w))
        as (pre & tail & H & Hpre & Htail).
      exists (Prompted zero_count_message true :: pre), tail.
      rewrite H. unfold after_zero_count at 1. rewrite H0. cbn [Z.eqb events].
      rewrite <- app_assoc. split; [reflexivity|]. split; [assumption|].
      destruct Htail as [[-> Hrm]|(n & removed & ->)].
      * left. split; [reflexivity|]. rewrite Hrm.
        apply (after_zero_count_fs args w).
      * right. exists n, removed. split; [reflexivity|]. intros _. now left.
    + unfold main, bind. rewrite confirm_zero_count_declined by assumption.
      exists [Prompted zero_count_message false], []. cbn. auto.
    + unfold main, bind. rewrite (confirm_zero_count_raise args w e) by assumption.
      exists [], []. cbn. rewrite app_nil_r. auto.
  - rewrite main_proceeds by now left.
    assert (Hw : after_zero_count args w = w).
    { unfold after_zero_count. apply Z.eqb_neq in H0. now rewrite H0. }
    rewrite Hw.
    destruct (clean_trace args w) as (pre & tail & H & Hpre & Htail).
    exists pre, tail. split; [assumption|]. split; [assumption|].
    destruct Htail as [[-> Hrm]|(n & removed & ->)].
    + now left.
    + right. exists n, removed. split; [reflexivity|].
      intros H1. contradiction.
Qed.

Lemma read_answer_empty_line (rest : list string) :
  read_answer ("" :: rest) = (Ok false, rest).
Proof. reflexivity. Qed.

(** C9.  In a run that starts with an empty record: the prompt answers no on
    an empty line; every removal comes after a yes to the question about the
    removal, and with a count of 0 also after a yes to the question about the
    count; without a yes to the question about the removal the removable
    files are the ones there were; and a count of 0 that is not confirmed ends
    the run with status 0, the question being all that happened. *)
Theorem removal_needs_confirmation (args : arguments) (w : world) :
  events w = [] ->
  (forall message w0 rest,
     stdin w0 = "" :: rest -> fst (yes_no_prompt message w0) = Ok false) /\
  (forall before p after,
     events (snd (main args w)) = before ++ Removed p :: after ->
     (exists n, In (Prompted (remove_message n) true) before) /\
     (count args = 0%Z -> In (Prompted zero_count_message true) before)) /\
  ((forall n, ~ In (Prompted (remove_message n) true) (events (snd (main args w)))) ->
   removable (snd (main args w)) = removable w) /\
  (count args = 0%Z -> fst (read_answer (stdin w)) = Ok false ->
   fst (main args w) = Raise (SystemExit 0) /\
   removable (snd (main args w)) = removable w /\
   events (snd (main args w)) = [Prompted zero_count_message false]).
Proof.
  intros Hw.
  destruct (main_trace args w) as (pre & tail & H & Hpre & Htail).
  rewrite Hw in H. cbn [app] in H.
  split; [|split; [|split]].
  - intros message w0 rest Hin. unfold yes_no_prompt.
    rewrite Hin, read_answer_empty_line. reflexivity.
  - intros before p after Hev. rewrite H in Hev.
    destruct Htail as [[-> _]|(n & removed & -> & Hzero)].
    + rewrite app_nil_r in Hev. subst pre. rewrite forallb_app in Hpre.
      cbn in Hpre. rewrite andb_false_r in Hpre. discriminate.
    + apply app_eq_app in Hev. destruct Hev as [l [[Hl1 Hl2]|[Hl1 Hl2]]].
      * subst pre. rewrite forallb_app in Hpre.
        destruct l as [|x l]; [discriminate|].
        inversion Hl2; subst. cbn in Hpre.
        rewrite andb_false_r in Hpre. discriminate.
      * destruct l as [|x l]; [discriminate|].
        inversion Hl2; subst. split.
        -- exists n. apply in_or_app. right. now left.
        -- intros H0. apply in_or_app. left. now apply Hzero.
  - intros Hno. destruct Htail as [[_ Hrm]|(n & removed & -> & _)]; [assumption|].
    exfalso. apply (Hno n). rewrite H. apply in_or_app. right. now left.
  - intros H0 Hdecl. unfold main, bind.
    rewrite confirm_zero_count_declined by assumption.
    cbn [fst snd removable events]. rewrite Hw. now repeat split.
Qed.

(** ** More about the parser *)

Lemma startswith_split (s p : string) :
  Py.startswith s p = true -> exists rest, s = (p ++ rest)%string.
Proof.
  revert s. induction p as [|b p IH]; intros s H.
  - now exists s.
  - destruct s as [|a s]; [discriminate|].
    cbn [Py.startswith] in H. apply andb_true_iff in H. destruct H as [Hab H].
    apply Ascii.eqb_eq in Hab. subst b.
    destruct (IH s H) as [rest ->]. now exists rest.
Qed.

Lemma startswith_refl (s : string) : Py.startswith s s = true.
Proof.
  induction s as [|a s IH]; [reflexivity|].
  cbn [Py.startswith]. now rewrite Ascii.eqb_refl.
Qed.

Lemma endswith_contains (s suffix : string) :
  Py.endswith s suffix = true -> Py.contains suffix s = true.
Proof.
  induction s as [|a s IH].
  - destruct suffix; [reflexivity | discriminate].
  - cbn [Py.endswith Py.contains]. intros H. apply orb_true_iff in H.
    apply orb_true_iff. destruct H as [H|H].
    + left. apply String.eqb_eq in H. subst suffix. apply startswith_refl.
    + right. now apply IH.
Qed.

Lemma split_head_contains (sep s : string) :
  Py.contains sep s = true ->
  exists rest, s = (Py.split_head sep s ++ sep ++ rest)%string.
Proof.
  induction s as [|a s IH]; intros H.
  - cbn in H. rewrite orb_false_r in H.
    destruct sep; [now exists ""|discriminate].
  - cbn [Py.contains] in H. cbn [Py.split_head].
    destruct (Py.startswith (String a s) sep) eqn:E.
    + apply startswith_split in E. destruct E as [rest E]. now exists rest.
    + cbn [orb] in H. destruct (IH H) as [rest Hrest].
      exists rest. cbn [String.append]. now rewrite <- Hrest.
Qed.

Lemma rsplit_tail_dashless (c : ascii) (n : nat) (s : string) :
  Forall (fun x => Py.count c x = 0) (tl (Py.rsplit c n s)).
Proof.
  revert s. induction n as [|n IH]; intros s; cbn [Py.rsplit]; [constructor|].
  destruct (Py.rpartition c s) as [[l r]|] eqn:E; [|constructor].
  apply rpartition_some in E. destruct E as [_ Hr].
  specialize (IH l). pose proof (rsplit_not_nil c n l) as Hne.
  destruct (Py.rsplit c n l) as [|x xs]; [congruence|].
  cbn [app tl] in *. apply Forall_app. split; [assumption|].
  now constructor.
Qed.

(** The five fields of a name that can be unpacked: joined by dashes they are
    the name without its extension, and only the package name can hold a
    dash. *)
Lemma split_fields_inv (pisi_file n v r t a : string) :
  split_fields pisi_file = Ok (n, v, r, t, a) ->
  Py.split_head ".pisi" pisi_file
  = (n ++ "-" ++ v ++ "-" ++ r ++ "-" ++ t ++ "-" ++ a)%string /\
  Py.count "-" v = 0 /\ Py.count "-" r = 0 /\
  Py.count "-" t = 0 /\ Py.count "-" a = 0.
Proof.
  unfold split_fields. intros H.
  pose proof (join_rsplit "-" 4 (Py.split_head ".pisi" pisi_file)) as J.
  pose proof (rsplit_tail_dashless "-" 4 (Py.split_head ".pisi" pisi_file)) as D.
  destruct (Py.rsplit "-" 4 (Py.split_head ".pisi" pisi_file))
    as [|x1 [|x2 [|x3 [|x4 [|x5 [|x6 l]]]]]]; try discriminate.
  cbn [unpack5] in H. inversion H; subst.
  split; [symmetry; exact J|].
  cbn [tl] in D.
  inversion D as [|? ? Dv D1]; subst. inversion D1 as [|? ? Dr D2]; subst.
  inversion D2 as [|? ? Dt D3]; subst. inversion D3 as [|? ? Da D4]; subst.
  auto.
Qed.

Lemma parse_file_parsed_inv (path pisi_file name t a : string) (e : entry) :
  parse_file path pisi_file = Ok (Parsed name t a e) ->
  exists v r,
    split_fields pisi_file = Ok (name, v, r, t, a) /\
    e = Entry path (Py.split "." v ++ [r]) (comparable_version e) /\
    parse_version (Py.join "." (Py.split "." v ++ [r])) = Some (comparable_version e).
Proof.
  unfold parse_file.
  destruct (split_fields pisi_file) as [[[[[n v] r] t'] a']|] eqn:E; [|discriminate].
  destruct (parse_version (Py.join "." (Py.split "." v ++ [r]))) as [cv|] eqn:Ev;
    [|discriminate].
  intros [= <- <- <- <-]. exists v, r. cbn. auto.
Qed.

(** X2.  Whatever the name of the file, when it can be unpacked the fields
    joined by dashes are the name up to its first [".pisi"], and the version,
    the revision, the tool version and the architecture hold no dash: the
    dashes of the name all go to the package name. *)
Theorem fields_are_the_last_four_dashes (pisi_file n v r t a : string) :
  split_fields pisi_file = Ok (n, v, r, t, a) ->
  Py.split_head ".pisi" pisi_file
  = (n ++ "-" ++ v ++ "-" ++ r ++ "-" ++ t ++ "-" ++ a)%string /\
  Py.count "-" v = 0 /\ Py.count "-" r = 0 /\
  Py.count "-" t = 0 /\ Py.count "-" a = 0 /\
  Py.count "-" n + 4 = Py.count "-" (Py.split_head ".pisi" pisi_file).
Proof.
  intros H. destruct (split_fields_inv _ _ _ _ _ _ H) as (Hs & Hv & Hr & Ht & Ha).
  repeat (split; [assumption|]).
  rewrite Hs, !count_append. cbn [Py.count].
  rewrite Hv, Hr, Ht, Ha. cbn. lia.
Qed.

(** X7.  A file that is parsed is rebuilt, with its own tool version and
    architecture, as the text before its first [".pisi"] followed by
    [".pisi"]: as the name of the file exactly when the extension at its end
    is the only [".pisi"] in it. *)
Theorem rebuilt_name_is_the_stem (root pisi_file name t a : string) (e : entry)
    (vs : list entry) :
  parse_file root pisi_file = Ok (Parsed name t a e) ->
  format_pisi_file name (Package t a vs) e
  = (Py.split_head ".pisi" pisi_file ++ ".pisi")%string /\
  path e = root /\
  (format_pisi_file name (Package t a vs) e = pisi_file <->
   pisi_file = (Py.split_head ".pisi" pisi_file ++ ".pisi")%string).
Proof.
  intros H. destruct (parse_file_parsed_inv _ _ _ _ _ _ H) as (v & r & Hf & He & _).
  destruct (split_fields_inv _ _ _ _ _ _ Hf) as (Hs & _).
  assert (Hfmt : format_pisi_file name (Package t a vs) e
                 = (Py.split_head ".pisi" pisi_file ++ ".pisi")%string).
  { rewrite He, Hs. unfold format_pisi_file. cbn [version pisi_version arch].
    rewrite removelast_last, last_last, join_split.
    now rewrite !append_assoc. }
  split; [exact Hfmt|]. split; [now rewrite He|].
  rewrite Hfmt. split; intros E; symmetry; exact E.
Qed.

(** ** More about the scan and the loop of parse_packages *)

(** X1.  The scan changes nothing and returns, with their roots, the files of
    the walk whose names end with [".pisi"], and only those; each of them has
    a [".pisi"] for the parser to cut at. *)
Theorem scan_repository_finds_the_archives (directory : string) (w : world) :
  snd (scan_repository directory w) = w /\
  fst (scan_repository directory w) = Ok (find_pisi_files (fs_walk w directory)) /\
  (forall root file,
     In (root, file) (find_pisi_files (fs_walk w directory)) <->
     (exists files, In (root, files) (fs_walk w directory) /\ In file files) /\
     Py.endswith file ".pisi" = true) /\
  (forall root file,
     In (root, file) (find_pisi_files (fs_walk w directory)) ->
     exists rest, file = (Py.split_head ".pisi" file ++ ".pisi" ++ rest)%string).
Proof.
  assert (Hin : forall root file,
             In (root, file) (find_pisi_files (fs_walk w directory)) <->
             (exists files, In (root, files) (fs_walk w directory) /\ In file files) /\
             Py.endswith file ".pisi" = true).
  { intros root file. unfold find_pisi_files. rewrite in_flat_map. split.
    - intros [[root' files] [Hw H]]. rewrite in_map_iff in H.
      destruct H as [file' [[= <- <-] Hf]]. apply filter_In in Hf.
      destruct Hf as [Hf He]. split; [now exists files | exact He].
    - intros [[files [Hw Hf]] He]. exists (root, files). split; [exact Hw|].
      apply in_map_iff. exists file. split; [reflexivity|].
      apply filter_In. now split. }
  split; [reflexivity|]. split; [reflexivity|]. split; [exact Hin|].
  intros root file H. apply Hin in H. destruct H as [_ He].
  now apply split_head_contains, endswith_contains.
Qed.



Lemma parse_loop_skipped (pisi_files : list (string * string)) :
  forall pkgs log log' pkgs',
    parse_loop pkgs log pisi_files = (log', Ok pkgs') ->
    log' = log ++ skipped_of pisi_files /\
    forall log1,
      parse_loop pkgs log1 (filter (fun pf => negb (is_skipped pf)) pisi_files)
      = (log1, Ok pkgs').
Proof.
  induction pisi_files as [|[p f] rest IH]; intros pkgs log log' pkgs' H.
  - cbn in H. inversion H; subst. split; [now rewrite app_nil_r | reflexivity].
  - cbn [parse_loop] in H. unfold skipped_of. cbn [flat_map filter].
    fold (skipped_of rest). unfold is_skipped at 1. cbn [fst snd].
    destruct (parse_file p f) as [[n t a x|l]|e'] eqn:E;
      [| destruct (log_writable log) eqn:Hw; [|discriminate] |discriminate].
    + destruct (IH _ _ _ _ H) as [Hlog Hrest]. split; [exact Hlog|].
      intros log1. cbn [negb parse_loop]. rewrite E. apply Hrest.
    + destruct (IH _ _ _ _ H) as [Hlog Hrest]. split.
      * rewrite Hlog. now rewrite <- app_assoc.
      * intros log1. cbn [negb]. apply Hrest.
Qed.

(** X4.  Of a scan that is parsed to its end, the files whose version is
    refused are logged, one line each in scan order, with the name of the file
    and its version field; for the package map they might as well not be
    there. *)
Theorem refused_versions_are_logged_and_skipped (pisi_files : list (string * string))
    (log : list log_line) (pkgs : packages) :
  parse_packages pisi_files = (log, Ok pkgs) ->
  log = skipped_of pisi_files /\
  parse_packages (filter (fun pf => negb (is_skipped pf)) pisi_files) = ([], Ok pkgs) /\
  (forall l, In l log ->
     exists root n r t a,
       In (root, log_file l) pisi_files /\
       split_fields (log_file l) = Ok (n, log_version l, r, t, a) /\
       parse_version (Py.join "." (Py.split "." (log_version l) ++ [r])) = None).
Proof.
  intros H. unfold parse_packages in *.
  destruct (parse_loop_skipped _ _ _ _ _ H) as [Hlog Hrest].
  cbn [app] in Hlog. split; [exact Hlog|]. split; [apply Hrest|].
  intros l Hl. rewrite Hlog in Hl. unfold skipped_of in Hl.
  rewrite in_flat_map in Hl. destruct Hl as [[p f] [Hin Hl]].
  unfold parse_file in Hl.
  destruct (split_fields f) as [[[[[n v] r] t] a]|] eqn:E; [|destruct Hl].
  destruct (parse_version (Py.join "." (Py.split "." v ++ [r]))) eqn:Ev;
    [destruct Hl|].
  destruct Hl as [<-|[]]. cbn [log_file log_version].
  exists p, n, r, t, a. auto.
Qed.

(** ** The groups of the package map *)

Lemma get_None_iff {V : Type} (d : Dict.t V) (k : string) :
  Dict.get d k = None <-> ~ In k (Dict.keys d).
Proof.
  unfold Dict.keys. induction d as [|[k' v] d IH]; cbn.
  - tauto.
  - destruct (String.eqb k' k) eqn:E.
    + apply String.eqb_eq in E. split; [discriminate|]. intros H. exfalso. auto.
    + apply String.eqb_neq in E. rewrite IH. tauto.
Qed.

Lemma merged_None_iff (l : list (string * string * entry)) :
  merged None l = None <-> l = [].
Proof.
  unfold merged. split.
  - destruct (rev l) as [|[[t a] e] r] eqn:E; [|discriminate].
    intros _. apply (f_equal (@rev _)) in E. now rewrite rev_involutive in E.
  - intros ->. reflexivity.
Qed.

(** X5.  The package map that [parse_packages] returns has every package name
    once, has a package exactly for the names under which a file of the scan
    was parsed, and gives no package an empty list of versions.  Each version
    comes from a file of the scan in the directory it records, its tuple is
    the version field split at the dots followed by the revision, and its
    comparable version is what [parse_version] makes of that tuple. *)
Theorem package_map_invariant (pisi_files : list (string * string))
    (log : list log_line) (pkgs : packages) :
  parse_packages pisi_files = (log, Ok pkgs) ->
  NoDup (Dict.keys pkgs) /\
  (forall name, In name (Dict.keys pkgs) <-> entries_of name pisi_files <> []) /\
  (forall name meta,
     In (name, meta) pkgs ->
     versions meta <> [] /\
     forall e, In e (versions meta) ->
       exists pisi_file v r t a,
         In (path e, pisi_file) pisi_files /\
         split_fields pisi_file = Ok (name, v, r, t, a) /\
         version e = Py.split "." v ++ [r] /\
         2 <= length (version e) /\
         parse_version (Py.join "." (version e)) = Some (comparable_version e)).
Proof.
  intros H. unfold parse_packages in H.
  assert (Hnd : NoDup (Dict.keys pkgs))
    by (apply (parse_loop_NoDup _ _ _ _ _ H); constructor).
  pose proof (parse_loop_get _ _ _ _ _ H) as Hget. cbn [Dict.get] in Hget.
  split; [exact Hnd|]. split.
  - intros name. rewrite <- merged_None_iff, <- Hget, get_None_iff.
    destruct (in_dec string_dec name (Dict.keys pkgs)); tauto.
  - intros name meta Hin.
    assert (Hm : merged None (entries_of name pisi_files) = Some meta).
    { rewrite <- Hget. now apply In_get. }
    destruct (merged_inv _ _ Hm) as (earlier & t' & a' & e' & Hl & _ & _ & Hvs).
    split.
    + rewrite Hvs, Hl, map_app. intros E. now apply app_eq_nil in E.
    + intros e He. rewrite Hvs in He. apply in_map_iff in He.
      destruct He as [[[t a] e0] [He0 Hin0]]. cbn in He0. subst e0.
      apply In_entries_of in Hin0. destruct Hin0 as (p & f & Hf & Hp).
      destruct (parse_file_parsed_inv _ _ _ _ _ _ Hp) as (v & r & Hsf & He & Hcv).
      exists f, v, r, t, a. rewrite He. cbn [path version comparable_version].
      repeat split; try assumption.
      rewrite length_app. cbn [length].
      pose proof (split_not_nil "." v). destruct (Py.split "." v); [congruence|].
      cbn. lia.
Qed.

(** ** More about the selection *)

Lemma list_sum_cons (a : nat) (l : list nat) : list_sum (a :: l) = a + list_sum l.
Proof. reflexivity. Qed.

Lemma length_find_redundant (count : Z) (pkgs : packages) :
  length (find_redundant count pkgs)
  = list_sum (map (fun nm => length (redundant_versions count (snd nm))) pkgs).
Proof.
  unfold find_redundant. induction pkgs as [|[name meta] pkgs IH]; [reflexivity|].
  cbn [flat_map map snd]. now rewrite list_sum_cons, length_app, length_map, IH.
Qed.

(** X8.  For a count that is not negative each package gives up its versions
    beyond the count and no more: the discard list has as many paths as the
    packages have versions beyond the count, and it is empty exactly when no
    package has more versions than the count. *)
Theorem discard_list_size (count : Z) (pkgs : packages) :
  (0 <= count)%Z ->
  length (find_redundant count pkgs)
  = list_sum (map (fun nm => length (versions (snd nm)) - Z.to_nat count) pkgs) /\
  (find_redundant count pkgs = [] <->
   forall name meta, In (name, meta) pkgs -> length (versions meta) <= Z.to_nat count).
Proof.
  intros Hc.
  assert (Hlen : forall meta,
             length (redundant_versions count meta)
             = length (versions meta) - Z.to_nat count).
  { intros meta. unfold redundant_versions.
    now rewrite slice_from_nonneg, length_skipn, length_sorted_newest_first. }
  split.
  - rewrite length_find_redundant. f_equal. apply map_ext. intros nm. apply Hlen.
  - rewrite <- length_zero_iff_nil, length_find_redundant.
    induction pkgs as [|[name meta] pkgs IH]; cbn [map snd];
      [|rewrite list_sum_cons].
    + split; [intros _ ? ? []|reflexivity].
    + rewrite Hlen. split.
      * intros H name' meta' [[= <- <-]|Hin]; [lia|].
        apply (proj1 IH) with (name := name'); [lia | exact Hin].
      * intros H. pose proof (H name meta (or_introl eq_refl)).
        assert (Hrest : list_sum (map (fun nm => length (redundant_versions count (snd nm))) pkgs) = 0).
        { apply (proj2 IH). intros n m Hin. apply (H n m). now right. }
        lia.
Qed.

Lemma In_skipn_le {A : Type} (n m : nat) (l : list A) (x : A) :
  n <= m -> In x (skipn m l) -> In x (skipn n l).
Proof.
  intros Hle H. replace m with ((m - n) + n) in H by lia.
  rewrite <- skipn_skipn in H. now apply In_skipn in H.
Qed.

(** X10.  Keeping more never discards more: for counts that are not negative,
    every path discarded with the larger count is discarded with the smaller
    one. *)
Theorem discard_list_shrinks_with_count (c1 c2 : Z) (pkgs : packages) :
  (0 <= c1 <= c2)%Z ->
  incl (find_redundant c2 pkgs) (find_redundant c1 pkgs).
Proof.
  intros [H1 H2] p. unfold find_redundant. rewrite !in_flat_map.
  intros [[name meta] [Hin Hp]]. exists (name, meta). split; [exact Hin|].
  rewrite in_map_iff in *. destruct Hp as [e [<- He]]. exists e.
  split; [reflexivity|].
  unfold redundant_versions in *. rewrite slice_from_nonneg in * by lia.
  apply (In_skipn_le (Z.to_nat c1) (Z.to_nat c2)); [lia | exact He].
Qed.

Lemma StronglySorted_app_inv {A : Type} (R : A -> A -> Prop) (l1 l2 : list A) :
  StronglySorted R (l1 ++ l2) ->
  forall x y, In x l1 -> In y l2 -> R x y.
Proof.
  induction l1 as [|a l1 IH]; intros H x y Hx Hy; [destruct Hx|].
  cbn in H. inversion H as [|? ? Hs Hf]; subst.
  destruct Hx as [<-|Hx].
  - rewrite Forall_forall in Hf. apply Hf. apply in_or_app. now right.
  - now apply IH.
Qed.

(** X11.  On versions that [<] orders as a strict weak order and for a count
    that is not negative, the versions a package keeps and the ones it gives
    up are together the versions it has, and no version that is kept is older
    than one that is given up. *)
Theorem kept_versions_are_the_newest (count : Z) (meta : package) :
  lt_asymmetric -> lt_negatively_transitive ->
  (0 <= count)%Z ->
  let kept := firstn (Z.to_nat count) (sorted_newest_first (versions meta)) in
  Permutation (kept ++ redundant_versions count meta) (versions meta) /\
  length kept = Nat.min (Z.to_nat count) (length (versions meta)) /\
  (forall k d,
     In k kept -> In d (redundant_versions count meta) ->
     version_lt (comparable_version k) (comparable_version d) = false).
Proof.
  intros Ha Ht Hc kept. unfold redundant_versions.
  rewrite slice_from_nonneg by assumption. unfold kept.
  split; [|split].
  - rewrite firstn_skipn. apply sorted_newest_first_perm.
  - now rewrite length_firstn, length_sorted_newest_first.
  - pose proof (sorted_newest_first_sorted Ha Ht (versions meta)) as Hs.
    unfold newest_first in Hs.
    rewrite <- (firstn_skipn (Z.to_nat count)) in Hs.
    intros k d Hk Hd.
    exact (StronglySorted_app_inv _ _ _ Hs k d Hk Hd).
Qed.

(** ** More about the removal and the prompt *)

Lemma remove_excess_ok_inv (l : list string) :
  forall w, fst (remove_excess l w) = Ok tt -> NoDup l /\ incl l (removable w).
Proof.
  induction l as [|p l IH]; intros w H.
  - split; [constructor | intros ? []].
  - cbn [remove_excess] in H. unfold bind, os_remove in H.
    destruct (in_dec string_dec p (removable w)) as [Hin|Hin]; [|discriminate].
    apply IH in H. cbn [removable] in H. destruct H as [Hnd Hincl]. split.
    + constructor; [|exact Hnd]. intros Hp. apply Hincl in Hp.
      apply in_remove in Hp. destruct Hp as [_ Hp]. now apply Hp.
    + intros q [<-|Hq]; [exact Hin|].
      apply Hincl in Hq. now apply in_remove in Hq.
Qed.

Lemma remove_excess_done (l : list string) :
  forall w, fst (remove_excess l w) = Ok tt ->
    events (snd (remove_excess l w)) = events w ++ map Removed l /\
    stdin (snd (remove_excess l w)) = stdin w /\
    (forall q, In q (removable (snd (remove_excess l w))) <->
               In q (removable w) /\ ~ In q l).
Proof.
  induction l as [|p l IH]; intros w H.
  - cbn. rewrite app_nil_r. repeat split; tauto.
  - cbn [remove_excess] in *. unfold bind, os_remove in *.
    destruct (in_dec string_dec p (removable w)) as [Hin|Hin]; [|discriminate].
    destruct (IH _ H) as (He & Hs & Hr). rewrite He, Hs. cbn [events stdin removable].
    split; [now rewrite <- app_assoc|]. split; [reflexivity|].
    intros q. rewrite Hr. cbn [removable In]. split.
    + intros [Hq Hnl]. apply in_remove in Hq. destruct Hq as [Hq Hne].
      split; [exact Hq|]. intros [E|E]; [now apply Hne | now apply Hnl].
    + intros [Hq Hn]. split.
      * apply in_in_remove; [|exact Hq]. intros E. apply Hn. now left.
      * intros E. apply Hn. now right.
Qed.

(** X14.  The pass over the discard list comes to its end exactly when the
    paths of the list are distinct and every one of them can be removed: a
    path that is listed twice fails at its second removal.  At the end the
    files removed are the files of the list, in order, and what is left to
    remove is what was there and is not in the list. *)
Theorem remove_excess_completes_iff (old_packages : list string) (w : world) :
  (fst (remove_excess old_packages w) = Ok tt <->
   NoDup old_packages /\ incl old_packages (removable w)) /\
  (fst (remove_excess old_packages w) = Ok tt ->
   events (snd (remove_excess old_packages w)) = events w ++ map Removed old_packages /\
   forall q, In q (removable (snd (remove_excess old_packages w))) <->
             In q (removable w) /\ ~ In q old_packages) /\
  (forall e, fst (remove_excess old_packages w) = Raise e -> e = OSError).
Proof.
  split; [|split].
  - split; [apply remove_excess_ok_inv|].
    intros [Hnd Hincl]. now apply remove_excess_ok.
  - intros H. destruct (remove_excess_done _ _ H) as (He & _ & Hr). now split.
  - revert w. induction old_packages as [|p l IH]; intros w e H; [discriminate|].
    cbn [remove_excess] in H. unfold bind, os_remove in H.
    destruct (in_dec string_dec p (removable w)); [now apply IH in H|].
    cbn in H. congruence.
Qed.

Lemma read_answer_unrecognised (junk lines : list string) :
  Forall (fun l => unrecognised l = true) junk ->
  read_answer (junk ++ lines) = read_answer lines.
Proof.
  induction 1 as [|l junk Hl _ IH]; [reflexivity|].
  cbn [app read_answer]. destruct l as [|c s]; [discriminate|].
  cbn [unrecognised] in Hl. apply negb_true_iff in Hl. now rewrite Hl.
Qed.

Lemma read_answer_raise (lines : list string) (e : exn) :
  fst (read_answer lines) = Raise e ->
  e = EOFError /\ Forall (fun l => unrecognised l = true) lines.
Proof.
  induction lines as [|l lines IH]; cbn [read_answer].
  - intros [= <-]. split; constructor.
  - destruct l as [|c s]; [discriminate|].
    destruct (Ascii.eqb (Py.lower c) "y" || Ascii.eqb (Py.lower c) "n") eqn:E;
      [discriminate|].
    intros H. destruct (IH H) as [He HF]. split; [exact He|].
    constructor; [|exact HF]. cbn [unrecognised]. now rewrite E.
Qed.

(** X15.  The prompt asks again as long as the line is not empty and starts
    with none of y, Y, n, N, and takes its answer from the first line that is
    empty or starts with one of them: yes for y and Y, no for the rest.  When
    the input ends before such a line, [input] raises [EOFError], the only
    exception of the prompt; the answer leaves the lines after it unread. *)
Theorem yes_no_prompt_answers (junk : list string) :
  Forall (fun l => unrecognised l = true) junk ->
  (forall rest, read_answer (junk ++ "" :: rest) = (Ok false, rest)) /\
  (forall c s rest,
     In c ["y"; "Y"]%char -> read_answer (junk ++ String c s :: rest) = (Ok true, rest)) /\
  (forall c s rest,
     In c ["n"; "N"]%char -> read_answer (junk ++ String c s :: rest) = (Ok false, rest)) /\
  read_answer junk = (Raise EOFError, []) /\
  (forall lines e,
     fst (read_answer lines) = Raise e ->
     e = EOFError /\ Forall (fun l => unrecognised l = true) lines).
Proof.
  intros Hjunk. split; [|split; [|split; [|split]]].
  - intros rest. now rewrite read_answer_unrecognised.
  - intros c s rest Hc. rewrite read_answer_unrecognised by assumption.
    destruct Hc as [<-|[<-|[]]]; reflexivity.
  - intros c s rest Hc. rewrite read_answer_unrecognised by assumption.
    destruct Hc as [<-|[<-|[]]]; reflexivity.
  - rewrite <- (app_nil_r junk). now rewrite read_answer_unrecognised.
  - apply read_answer_raise.
Qed.

(** X16.  A run that gets to the removal and is told yes removes the paths
    of the discard list and nothing else, when they are distinct and can all
    be removed: it ends normally, what is left to remove is what was there
    and is not in the list, and the record of the run ends with the lines of
    the error log, the question and the removals in the order of the list. *)
Theorem confirmed_run_removes_the_discard_list (args : arguments) (w : world)
    (log : list log_line) (pkgs : packages) :
  proceeds args w ->
  fs_exists w (directory args) = true ->
  fs_isdir w (directory args) = true ->
  parse_packages (find_pisi_files (fs_walk w (directory args))) = (log, Ok pkgs) ->
  let redundant := find_redundant (count args) pkgs in
  redundant <> [] ->
  fst (read_answer (stdin (after_zero_count args w))) = Ok true ->
  NoDup redundant -> incl redundant (removable w) ->
  fst (main args w) = Ok tt /\
  (forall q, In q (removable (snd (main args w))) <->
             In q (removable w) /\ ~ In q redundant) /\
  events (snd (main args w))
  = events (after_zero_count args w) ++ map Logged log
    ++ Prompted (remove_message (length redundant)) true :: map Removed redundant.
Proof.
  intros Hgo Hex Hdir Hparse redundant Hne Hyes Hnd Hincl.
  rewrite main_proceeds by assumption. rewrite clean_unfold.
  destruct (after_zero_count_fs args w) as (-> & -> & -> & Hrm).
  rewrite Hex, Hdir. cbn [negb]. cbv zeta. rewrite Hparse. cbn [fst snd].
  assert (Hfiles : is_empty (find_pisi_files (fs_walk w (directory args))) = false).
  { destruct (find_pisi_files (fs_walk w (directory args))); [|reflexivity].
    rewrite parse_packages_nil in Hparse. inversion Hparse; subst.
    now exfalso; apply Hne. }
  rewrite Hfiles.
  assert (Hpkgs : is_empty pkgs = false).
  { destruct pkgs; [now exfalso; apply Hne | reflexivity]. }
  rewrite Hpkgs. fold redundant.
  assert (Hred : is_empty redundant = false).
  { destruct redundant; [now exfalso; apply Hne | reflexivity]. }
  rewrite Hred, Hyes.
  match goal with
  | |- context [remove_excess redundant ?w2] =>
      assert (Hok : fst (remove_excess redundant w2) = Ok tt)
        by (apply remove_excess_ok; [exact Hnd | cbn [removable]; now rewrite Hrm]);
      destruct (remove_excess_done redundant w2 Hok) as (He & _ & Hr)
  end.
  split; [exact Hok|]. split.
  - intros q. rewrite Hr. cbn [removable]. now rewrite Hrm.
  - rewrite He. cbn [events]. now rewrite <- !app_assoc.
Qed.

(** ** The archives that are kept *)

Lemma NoDup_app_disjoint {A : Type} (l1 l2 : list A) (a : A) :
  NoDup (l1 ++ l2) -> In a l1 -> In a l2 -> False.
Proof.
  induction l1 as [|x l1 IH]; intros H H1 H2; [destruct H1|].
  cbn in H. inversion H as [|? ? Hx Hnd]; subst.
  destruct H1 as [->|H1]; [|now apply IH].
  apply Hx. apply in_or_app. now right.
Qed.

Lemma NoDup_map_filter {A B : Type} (f : A -> B) (P : A -> bool) (l : list A) :
  NoDup (map f l) -> NoDup (map f (filter P l)).
Proof.
  induction l as [|x l IH]; intros H; [constructor|].
  cbn in H. inversion H as [|? ? Hx Hnd]; subst. cbn [filter].
  destruct (P x); [|now apply IH].
  cbn [map]. constructor; [|now apply IH].
  intros Hin. apply Hx. rewrite in_map_iff in *.
  destruct Hin as [y [Hy Hin]]. exists y. split; [exact Hy|].
  now apply filter_In in Hin.
Qed.

Lemma NoDup_map_injective {A B : Type} (f : A -> B) (l : list A) (x y : A) :
  NoDup (map f l) -> In x l -> In y l -> f x = f y -> x = y.
Proof.
  induction l as [|z l IH]; intros H Hx Hy E; [destruct Hx|].
  cbn in H. inversion H as [|? ? Hz Hnd]; subst.
  destruct Hx as [->|Hx], Hy as [->|Hy].
  - reflexivity.
  - exfalso. apply Hz. rewrite E. now apply in_map.
  - exfalso. apply Hz. rewrite <- E. now apply in_map.
  - now apply IH.
Qed.

(** The paths that [find_redundant] builds for the versions of a package whose
    archives all carry the tool version and the architecture of the group are
    the paths of the archives of the package that were parsed, in scan
    order. *)
Lemma group_paths (name : string) (meta : package) (archives : list archive) :
  Forall (fun x => well_formed x = true) archives ->
  (forall x, In x archives -> a_name x = name ->
             a_tool x = pisi_version meta /\ a_arch x = arch meta) ->
  map (fun e => Py.os_path_join (path e) (format_pisi_file name meta e))
      (map snd (entries_of name (map archive_scan archives)))
  = map archive_full_path
      (filter (fun x => String.eqb (a_name x) name
                        && match parse_version (Py.join "." (archive_tuple x)) with
                           | Some _ => true
                           | None => false
                           end)
              archives).
Proof.
  induction archives as [|x archives IH]; intros Hwf Hmeta; [reflexivity|].
  inversion Hwf as [|? ? Hx Hwf']; subst.
  unfold entries_of. cbn [map flat_map archive_scan filter].
  fold (entries_of name (map archive_scan archives)).
  rewrite parse_file_archive by assumption.
  assert (IH' := IH Hwf' (fun y Hy => Hmeta y (or_intror Hy))).
  destruct (parse_version (Py.join "." (archive_tuple x))) as [v|].
  - destruct (String.eqb (a_name x) name) eqn:E; cbn [andb app map snd].
    + rewrite IH'. f_equal. apply String.eqb_eq in E.
      destruct (Hmeta x (or_introl eq_refl) E) as [Ht Ha].
      unfold archive_full_path. cbn [path]. f_equal.
      destruct meta as [mt ma mvs]. cbn in Ht, Ha. subst mt ma name.
      apply format_pisi_file_archive.
    + exact IH'.
  - rewrite andb_false_r. exact IH'.
Qed.

Lemma In_find_redundant_inv (count : Z) (pkgs : packages) (p : string) :
  In p (find_redundant count pkgs) ->
  exists name meta e,
    In (name, meta) pkgs /\ In e (redundant_versions count meta) /\
    p = Py.os_path_join (path e) (format_pisi_file name meta e).
Proof.
  unfold find_redundant. rewrite in_flat_map.
  intros [[name meta] [Hin H]]. rewrite in_map_iff in H.
  destruct H as [e [<- He]]. now exists name, meta, e.
Qed.

(** The group of a package agrees with each archive of its name, when the
    archives of one name agree with each other. *)
Lemma group_agrees_with_archives (archives : list archive) (log : list log_line)
    (pkgs : packages) (name : string) (meta : package) :
  Forall (fun x => well_formed x = true) archives ->
  (forall x y, In x archives -> In y archives -> a_name x = a_name y ->
               a_tool x = a_tool y /\ a_arch x = a_arch y) ->
  parse_packages (map archive_scan archives) = (log, Ok pkgs) ->
  In (name, meta) pkgs ->
  versions meta = map snd (entries_of name (map archive_scan archives)) /\
  forall x, In x archives -> a_name x = name ->
            a_tool x = pisi_version meta /\ a_arch x = arch meta.
Proof.
  intros Hwf Huni Hparse Hin. rewrite Forall_forall in Hwf.
  assert (Hget : Dict.get pkgs name = Some meta).
  { apply In_get; [|assumption].
    apply (parse_loop_NoDup _ _ _ _ _ Hparse). constructor. }
  pose proof (parse_loop_get _ _ _ _ _ Hparse name) as Hgroup.
  cbn [Dict.get] in Hgroup. rewrite Hget in Hgroup. symmetry in Hgroup.
  destruct (merged_inv _ _ Hgroup) as (earlier & t' & a' & e' & Hent & Ht & Ha & Hvs).
  split; [exact Hvs|].
  assert (Hlast : In (t', a', e') (entries_of name (map archive_scan archives)))
    by (rewrite Hent; apply in_or_app; right; now left).
  apply In_entries_of in Hlast. destruct Hlast as (p1 & f1 & Hf1 & Hparse1).
  rewrite in_map_iff in Hf1. destruct Hf1 as [y [[= <- <-] Hy]].
  destruct (parse_file_archive_parsed y name t' a' e' (Hwf y Hy) Hparse1)
    as (Hn' & -> & -> & _ & _).
  intros x Hx Hn. rewrite Ht, Ha. apply Huni; [assumption | assumption | congruence].
Qed.

(** X12.  When the archives of the scan are well formed, have distinct paths
    and agree within each package on tool version and architecture, the
    archives of the newest [count] versions of every package stay: the path
    of each of them is the path of a scanned archive and is not in the
    discard list. *)
Theorem kept_archives_are_not_discarded (archives : list archive) (count : Z)
    (log : list log_line) (pkgs : packages) :
  Forall (fun x => well_formed x = true) archives ->
  (forall x y, In x archives -> In y archives -> a_name x = a_name y ->
               a_tool x = a_tool y /\ a_arch x = a_arch y) ->
  NoDup (map archive_full_path archives) ->
  (0 <= count)%Z ->
  parse_packages (map archive_scan archives) = (log, Ok pkgs) ->
  forall name meta e,
    In (name, meta) pkgs ->
    In e (firstn (Z.to_nat count) (sorted_newest_first (versions meta))) ->
    In (Py.os_path_join (path e) (format_pisi_file name meta e))
       (map archive_full_path archives) /\
    ~ In (Py.os_path_join (path e) (format_pisi_file name meta e))
         (find_redundant count pkgs).
Proof.
  intros Hwf Huni Hnd Hc Hparse name meta e Hin He.
  set (g := fun (n : string) (m : package) (v : entry) =>
              Py.os_path_join (path v) (format_pisi_file n m v)).
  assert (Hpaths : forall n m, In (n, m) pkgs ->
            exists group,
              map (g n m) (versions m) = map archive_full_path group /\
              NoDup (map archive_full_path group) /\
              forall x, In x group -> In x archives /\ a_name x = n).
  { intros n m Hnm.
    destruct (group_agrees_with_archives archives log pkgs n m Hwf Huni Hparse Hnm)
      as [Hvs Hagree].
    eexists. split; [rewrite Hvs; apply (group_paths n m archives Hwf Hagree)|].
    split; [now apply NoDup_map_filter|].
    intros x Hx. apply filter_In in Hx. destruct Hx as [Hx HP].
    apply andb_true_iff in HP. destruct HP as [HP _].
    apply String.eqb_eq in HP. now split. }
  assert (Hranked : forall n m, Permutation (map (g n m) (sorted_newest_first (versions m)))
                                        (map (g n m) (versions m)))
    by (intros; apply Permutation_map, sorted_newest_first_perm).
  assert (Hkept : In e (sorted_newest_first (versions meta))).
  { rewrite <- (firstn_skipn (Z.to_nat count) (sorted_newest_first (versions meta))).
    apply in_or_app. now left. }
  destruct (Hpaths name meta Hin) as (group & Hmap & Hgnd & Hgroup).
  assert (Hx : exists x, In x group /\ g name meta e = archive_full_path x).
  { assert (H : In (g name meta e) (map archive_full_path group)).
    { rewrite <- Hmap. apply (Permutation_in _ (Hranked name meta)).
      now apply in_map. }
    apply in_map_iff in H. destruct H as [x [E Hx]]. now exists x. }
  destruct Hx as (x & Hxg & Ex). destruct (Hgroup x Hxg) as [Hxa Hxn].
  fold (g name meta e). split.
  - rewrite Ex. now apply in_map.
  - intros Hd. apply In_find_redundant_inv in Hd.
    destruct Hd as (n' & m' & e' & Hin' & He' & E').
    fold (g n' m' e') in E'.
    unfold redundant_versions in He'. rewrite slice_from_nonneg in He' by assumption.
    destruct (string_dec n' name) as [->|Hne].
    + assert (m' = meta).
      { assert (Hk : NoDup (Dict.keys pkgs))
          by (apply (parse_loop_NoDup _ _ _ _ _ Hparse); constructor).
        pose proof (In_get pkgs name m' Hk Hin') as G1.
        pose proof (In_get pkgs name meta Hk Hin) as G2. congruence. }
      subst m'.
      assert (HndR : NoDup (map (g name meta) (sorted_newest_first (versions meta)))).
      { apply (Permutation_NoDup (Permutation_sym (Hranked name meta))).
        now rewrite Hmap. }
      rewrite <- (firstn_skipn (Z.to_nat count) (sorted_newest_first (versions meta))),
        map_app in HndR.
      apply (NoDup_app_disjoint _ _ (g name meta e) HndR).
      * now apply in_map.
      * rewrite E'. now apply in_map.
    + destruct (Hpaths n' m' Hin') as (group' & Hmap' & _ & Hgroup').
      assert (H : In (g n' m' e') (map archive_full_path group')).
      { rewrite <- Hmap'. apply (Permutation_in _ (Hranked n' m')).
        apply in_map. now apply In_skipn in He'. }
      apply in_map_iff in H. destruct H as [y [Ey Hy]].
      destruct (Hgroup' y Hy) as [Hya Hyn].
      assert (x = y).
      { apply (NoDup_map_injective archive_full_path archives); try assumption.
        congruence. }
      subst y. congruence.
Qed.

(** ** The order and the paths of the discard list *)

Lemma parse_loop_keys (pisi_files : list (string * string)) :
  forall pkgs log log' pkgs',
    parse_loop pkgs log pisi_files = (log', Ok pkgs') ->
    Dict.keys pkgs'
    = Dict.keys pkgs ++ first_occurrences (Dict.keys pkgs) (parsed_names pisi_files).
Proof.
  induction pisi_files as [|[p f] rest IH]; intros pkgs log log' pkgs' H.
  - cbn in H. inversion H; subst. cbn. now rewrite app_nil_r.
  - cbn [parse_loop] in H. unfold parsed_names. cbn [flat_map].
    fold (parsed_names rest).
    destruct (parse_file p f) as [[n t a e|l]|e] eqn:E;
      [| destruct (log_writable log) eqn:Hw; [|discriminate] |discriminate].
    + rewrite (IH _ _ _ _ H). unfold add_entry. rewrite keys_update.
      cbn [app first_occurrences].
      destruct (in_dec string_dec n (Dict.keys pkgs)); [reflexivity|].
      now rewrite <- app_assoc.
    + cbn [app]. apply (IH _ _ _ _ H).
Qed.

(** X6.  The packages of the map, and with them the groups of paths in the
    discard list, are in the order in which the scan first met a file of each
    package: the discard list is the paths of the first package met, newest
    first from the count on, then those of the second, and so on. *)
Theorem packages_are_in_order_of_first_appearance (pisi_files : list (string * string))
    (log : list log_line) (pkgs : packages) (count : Z) :
  parse_packages pisi_files = (log, Ok pkgs) ->
  Dict.keys pkgs = first_occurrences [] (parsed_names pisi_files) /\
  find_redundant count pkgs
  = flat_map
      (fun name =>
         match Dict.get pkgs name with
         | Some meta =>
             map (fun v => Py.os_path_join (path v) (format_pisi_file name meta v))
                 (redundant_versions count meta)
         | None => []
         end)
      (first_occurrences [] (parsed_names pisi_files)).
Proof.
  intros H. unfold parse_packages in H.
  pose proof (parse_loop_keys _ _ _ _ _ H) as Hkeys. cbn [Dict.keys map app] in Hkeys.
  split; [exact Hkeys|].
  rewrite <- Hkeys.
  assert (Hnd : NoDup (Dict.keys pkgs))
    by (apply (parse_loop_NoDup _ _ _ _ _ H); constructor).
  clear H Hkeys. unfold find_redundant.
  assert (Hgen : forall l : packages,
             (forall nm, In nm l -> In nm pkgs) ->
             flat_map
               (fun '(name, meta) =>
                  map (fun v => Py.os_path_join (path v) (format_pisi_file name meta v))
                      (redundant_versions count meta)) l
             = flat_map
                 (fun name =>
                    match Dict.get pkgs name with
                    | Some meta =>
                        map (fun v => Py.os_path_join (path v)
                                        (format_pisi_file name meta v))
                            (redundant_versions count meta)
                    | None => []
                    end) (Dict.keys l)).
  { induction l as [|[name meta] l IH]; intros Hl; [reflexivity|].
    cbn [flat_map Dict.keys map fst].
    rewrite (In_get pkgs name meta Hnd (Hl _ (or_introl eq_refl))).
    f_equal. apply IH. intros nm Hnm. apply Hl. now right. }
  apply Hgen. auto.
Qed.

Lemma NoDup_skipn {A : Type} (n : nat) (l : list A) : NoDup l -> NoDup (skipn n l).
Proof.
  intros H. rewrite <- (firstn_skipn n l) in H. now apply NoDup_app_remove_l in H.
Qed.

Lemma NoDup_slice_from {A : Type} (k : Z) (l : list A) :
  NoDup l -> NoDup (Py.slice_from k l).
Proof. unfold Py.slice_from. destruct (0 <=? k)%Z; apply NoDup_skipn. Qed.

Lemma slice_from_map {A B : Type} (f : A -> B) (k : Z) (l : list A) :
  Py.slice_from k (map f l) = map f (Py.slice_from k l).
Proof.
  unfold Py.slice_from. rewrite length_map.
  destruct (0 <=? k)%Z; apply skipn_map.
Qed.

(** X13.  When the archives of the scan are well formed, have distinct paths
    and agree within each package on tool version and architecture, the
    discard list holds no path twice and only paths of scanned archives, for
    every count; with a count of 0 it holds the path of every archive whose
    version was parsed. *)
Theorem discard_list_has_no_repeats (archives : list archive)
    (log : list log_line) (pkgs : packages) :
  Forall (fun x => well_formed x = true) archives ->
  (forall x y, In x archives -> In y archives -> a_name x = a_name y ->
               a_tool x = a_tool y /\ a_arch x = a_arch y) ->
  NoDup (map archive_full_path archives) ->
  parse_packages (map archive_scan archives) = (log, Ok pkgs) ->
  (forall count,
     NoDup (find_redundant count pkgs) /\
     incl (find_redundant count pkgs) (map archive_full_path archives)) /\
  (forall x,
     In x archives ->
     parse_version (Py.join "." (archive_tuple x)) <> None ->
     In (archive_full_path x) (find_redundant 0 pkgs)).
Proof.
  intros Hwf Huni Hnd Hparse.
  set (g := fun (n : string) (m : package) (v : entry) =>
              Py.os_path_join (path v) (format_pisi_file n m v)).
  set (P := fun (n : string) (x : archive) =>
              String.eqb (a_name x) n
              && match parse_version (Py.join "." (archive_tuple x)) with
                 | Some _ => true
                 | None => false
                 end).
  assert (Hkeys : NoDup (Dict.keys pkgs))
    by (apply (parse_loop_NoDup _ _ _ _ _ Hparse); constructor).
  assert (Hpaths : forall n m, In (n, m) pkgs ->
            map (g n m) (versions m) = map archive_full_path (filter (P n) archives)).
  { intros n m Hnm.
    destruct (group_agrees_with_archives archives log pkgs n m Hwf Huni Hparse Hnm)
      as [Hvs Hagree].
    rewrite Hvs. apply (group_paths n m archives Hwf Hagree). }
  assert (Hgroup : forall count n m, In (n, m) pkgs ->
            NoDup (map (g n m) (redundant_versions count m)) /\
            forall p, In p (map (g n m) (redundant_versions count m)) ->
                      exists x, In x archives /\ a_name x = n /\ p = archive_full_path x).
  { intros count n m Hnm. unfold redundant_versions.
    rewrite <- slice_from_map.
    assert (Hperm : Permutation (map (g n m) (sorted_newest_first (versions m)))
                                (map archive_full_path (filter (P n) archives))).
    { rewrite <- (Hpaths n m Hnm). apply Permutation_map, sorted_newest_first_perm. }
    split.
    - apply NoDup_slice_from.
      apply (Permutation_NoDup (Permutation_sym Hperm)).
      now apply NoDup_map_filter.
    - intros p Hp. apply In_slice_from in Hp.
      apply (Permutation_in _ Hperm) in Hp. apply in_map_iff in Hp.
      destruct Hp as [x [<- Hx]]. apply filter_In in Hx. destruct Hx as [Hx HP].
      unfold P in HP. apply andb_true_iff in HP. destruct HP as [HP _].
      apply String.eqb_eq in HP. now exists x. }
  split.
  - intros count. split.
    + unfold find_redundant.
      assert (Hgen : forall l : packages,
                 (forall nm, In nm l -> In nm pkgs) -> NoDup (Dict.keys l) ->
                 NoDup (flat_map
                          (fun '(name, meta) =>
                             map (fun v => Py.os_path_join (path v)
                                             (format_pisi_file name meta v))
                                 (redundant_versions count meta)) l)).
      { induction l as [|[n m] l IH]; intros Hl Hk; [constructor|].
        cbn [flat_map]. cbn in Hk. inversion Hk as [|? ? Hn Hk']; subst.
        destruct (Hgroup count n m (Hl _ (or_introl eq_refl))) as [Hg1 Hg2].
        apply NoDup_app.
        - exact Hg1.
        - apply IH; [intros nm Hnm; apply Hl; now right | exact Hk'].
        - intros p Hp Hp'. apply Hg2 in Hp. destruct Hp as (x & Hx & Hxn & ->).
          apply in_flat_map in Hp'. destruct Hp' as [[n' m'] [Hin' Hp']].
          destruct (Hgroup count n' m' (Hl _ (or_intror Hin'))) as [_ Hg2'].
          apply Hg2' in Hp'. destruct Hp' as (y & Hy & Hyn & E).
          assert (x = y) by now apply (NoDup_map_injective archive_full_path archives).
          subst y. apply Hn. apply in_map_iff. exists (n', m').
          split; [cbn; congruence | exact Hin']. }
      apply Hgen; auto.
    + intros p Hp. apply In_find_redundant_inv in Hp.
      destruct Hp as (n & m & e & Hnm & He & ->).
      destruct (Hgroup count n m Hnm) as [_ Hg2].
      destruct (Hg2 (g n m e)) as (x & Hx & _ & E); [now apply in_map|].
      unfold g in E. rewrite E. now apply in_map.
  - intros x Hx Hv.
    pose proof (parse_loop_get _ _ _ _ _ Hparse (a_name x)) as Hget.
    cbn [Dict.get] in Hget.
    assert (HPx : P (a_name x) x = true).
    { unfold P. rewrite String.eqb_refl.
      destruct (parse_version (Py.join "." (archive_tuple x))); [reflexivity|congruence]. }
    destruct (Dict.get pkgs (a_name x)) as [m|] eqn:G.
    + apply get_In in G. unfold find_redundant. apply in_flat_map.
      exists (a_name x, m). split; [exact G|].
      unfold redundant_versions. rewrite slice_from_nonneg by lia.
      cbn [Z.to_nat skipn].
      apply (Permutation_in (l := map (g (a_name x) m) (versions m))).
      * apply Permutation_map. symmetry. apply sorted_newest_first_perm.
      * rewrite (Hpaths _ _ G). apply in_map. apply filter_In. now split.
    + exfalso. symmetry in Hget. apply merged_None_iff in Hget.
      assert (Hin : In (archive_scan x) (map archive_scan archives)) by now apply in_map.
      rewrite Forall_forall in Hwf.
      pose proof (parse_file_archive x (Hwf x Hx)) as Hp.
      destruct (parse_version (Py.join "." (archive_tuple x))) as [v|] eqn:Ev;
        [|congruence].
      assert (Hent : In (a_tool x, a_arch x, Entry (a_path x) (archive_tuple x) v)
                        (entries_of (a_name x) (map archive_scan archives))).
      { apply In_entries_of. exists (a_path x), (archive_file x). now split. }
      rewrite Hget in Hent. destruct Hent.
Qed.

(** ** The discard list and the count *)

(** C4.  For a count that is not negative the discard list is, package by
    package, the paths of the entries of the ranking from index [count] on.
    The ranking permutes the versions of the package and, on versions that
    [<] orders as a strict weak order, is newest first, so that no version
    that is kept is older than one that is discarded.  A package of five
    versions gives up, with a count of 3, exactly the last two of its ranking,
    its two oldest; with a count of 0 every version of every package is
    discarded. *)
Theorem discard_is_the_ranking_from_count (count : Z) (pkgs : packages) :
  (0 <= count)%Z ->
  let path_of := fun (name : string) (meta : package) (v : entry) =>
                   Py.os_path_join (path v) (format_pisi_file name meta v) in
  find_redundant count pkgs
  = flat_map
      (fun '(name, meta) =>
         map (path_of name meta)
             (skipn (Z.to_nat count) (sorted_newest_first (versions meta))))
      pkgs /\
  (forall meta,
     let ranked := sorted_newest_first (versions meta) in
     Permutation ranked (versions meta) /\
     (forall i, nth_error (redundant_versions count meta) i
                = nth_error ranked (Z.to_nat count + i)) /\
     length (redundant_versions count meta)
     = length (versions meta) - Z.to_nat count /\
     (lt_asymmetric -> lt_negatively_transitive ->
      newest_first ranked /\
      forall k d,
        In k (firstn (Z.to_nat count) ranked) ->
        In d (redundant_versions count meta) ->
        version_lt (comparable_version k) (comparable_version d) = false)) /\
  (forall name meta,
     count = 3%Z -> length (versions meta) = 5 ->
     exists v1 v2 v3 v4 v5,
       sorted_newest_first (versions meta) = [v1; v2; v3; v4; v5] /\
       find_redundant count [(name, meta)]
       = [path_of name meta v4; path_of name meta v5] /\
       (lt_asymmetric -> lt_negatively_transitive ->
        version_lt (comparable_version v4) (comparable_version v5) = false /\
        forall k d, In k [v1; v2; v3] -> In d [v4; v5] ->
                    version_lt (comparable_version k) (comparable_version d) = false)) /\
  (count = 0%Z ->
   find_redundant count pkgs
   = flat_map
       (fun '(name, meta) =>
          map (path_of name meta) (sorted_newest_first (versions meta)))
       pkgs /\
   length (find_redundant count pkgs)
   = list_sum (map (fun nm => length (versions (snd nm))) pkgs)).
Proof.
  intros Hc path_of.
  assert (Hslice : forall meta,
             redundant_versions count meta
             = skipn (Z.to_nat count) (sorted_newest_first (versions meta))).
  { intros meta. unfold redundant_versions. now apply slice_from_nonneg. }
  assert (Hfind : forall l : packages,
             find_redundant count l
             = flat_map
                 (fun '(name, meta) =>
                    map (path_of name meta)
                        (skipn (Z.to_nat count) (sorted_newest_first (versions meta))))
                 l).
  { intros l. unfold find_redundant. induction l as [|[name meta] l IH]; [reflexivity|].
    cbn [flat_map]. now rewrite IH, Hslice. }
  split; [apply Hfind|]. split; [|split].
  - intros meta ranked. split; [apply sorted_newest_first_perm|].
    split; [intros i; rewrite Hslice; apply nth_error_skipn|].
    split; [rewrite Hslice, length_skipn; unfold ranked;
            now rewrite length_sorted_newest_first|].
    intros Ha Ht.
    pose proof (sorted_newest_first_sorted Ha Ht (versions meta)) as Hs.
    split; [exact Hs|].
    intros k d Hk Hd. rewrite Hslice in Hd. unfold newest_first in Hs.
    rewrite <- (firstn_skipn (Z.to_nat count) (sorted_newest_first (versions meta))) in Hs.
    exact (StronglySorted_app_inv _ _ _ Hs k d Hk Hd).
  - intros name meta -> H5.
    pose proof (fun Ha Ht => sorted_newest_first_sorted Ha Ht (versions meta)) as Hs.
    rewrite <- (length_sorted_newest_first (versions meta)) in H5.
    rewrite (Hfind [(name, meta)]). cbn [flat_map].
    destruct (sorted_newest_first (versions meta))
      as [|v1 [|v2 [|v3 [|v4 [|v5 [|v6 r]]]]]]; try discriminate.
    exists v1, v2, v3, v4, v5. split; [reflexivity|]. split; [reflexivity|].
    intros Ha Ht. specialize (Hs Ha Ht). unfold newest_first in Hs. split.
    + change [v1; v2; v3; v4; v5] with ([v1; v2; v3; v4] ++ [v5]) in Hs.
      apply (StronglySorted_app_inv _ _ _ Hs); [do 3 right|]; now left.
    + intros k d Hk Hd.
      change [v1; v2; v3; v4; v5] with ([v1; v2; v3] ++ [v4; v5]) in Hs.
      exact (StronglySorted_app_inv _ _ _ Hs k d Hk Hd).
  - intros ->. split; [apply (Hfind pkgs)|].
    rewrite length_find_redundant. f_equal. apply map_ext. intros nm.
    rewrite Hslice. cbn [Z.to_nat skipn]. apply length_sorted_newest_first.
Qed.

(** X9.  A negative count is taken from the end of the ranking, and the script
    does not ask the question it asks for a count of 0: of a package with [n]
    versions the last [min (-count) n] of the ranking are discarded and the
    ones before them are kept.  On versions that [<] orders as a strict weak
    order the ranking is newest first, so the discarded ones are the oldest:
    none of those that are kept is older than one that is discarded. *)
Theorem negative_count_discards_the_oldest (args : arguments) (w : world)
    (name : string) (meta : package) :
  (count args < 0)%Z ->
  let ranked := sorted_newest_first (versions meta) in
  let k := Z.to_nat (- count args) in
  let kept := firstn (length ranked - k) ranked in
  confirm_zero_count args w = (Ok tt, w) /\
  find_redundant (count args) [(name, meta)]
  = map (fun v => Py.os_path_join (path v) (format_pisi_file name meta v))
        (skipn (length ranked - k) ranked) /\
  redundant_versions (count args) meta = skipn (length ranked - k) ranked /\
  length (redundant_versions (count args) meta) = Nat.min k (length (versions meta)) /\
  Permutation (kept ++ redundant_versions (count args) meta) (versions meta) /\
  (lt_asymmetric -> lt_negatively_transitive ->
   newest_first ranked /\
   forall x d,
     In x kept -> In d (redundant_versions (count args) meta) ->
     version_lt (comparable_version x) (comparable_version d) = false).
Proof.
  intros Hc ranked k kept.
  assert (Hneg : (0 <=? count args)%Z = false) by (apply Z.leb_gt; exact Hc).
  assert (Hslice : redundant_versions (count args) meta = skipn (length ranked - k) ranked).
  { unfold redundant_versions, Py.slice_from. now rewrite Hneg. }
  split; [|split; [|split; [|split; [|split]]]].
  - unfold confirm_zero_count, when.
    assert (Hz : (count args =? 0)%Z = false) by (apply Z.eqb_neq; lia).
    now rewrite Hz.
  - unfold find_redundant. cbn [flat_map]. now rewrite app_nil_r, Hslice.
  - exact Hslice.
  - rewrite Hslice, length_skipn. unfold ranked.
    rewrite length_sorted_newest_first. lia.
  - rewrite Hslice. unfold kept. rewrite firstn_skipn.
    apply sorted_newest_first_perm.
  - intros Ha Ht.
    pose proof (sorted_newest_first_sorted Ha Ht (versions meta)) as Hs.
    split; [exact Hs|].
    intros x d Hx Hd. rewrite Hslice in Hd. unfold newest_first in Hs.
    fold ranked in Hs. rewrite <- (firstn_skipn (length ranked - k) ranked) in Hs.
    exact (StronglySorted_app_inv _ _ _ Hs x d Hx Hd).
Qed.

(** ** The names in the discard list *)

Lemma append_inj_l (s a b : string) : (s ++ a = s ++ b)%string -> a = b.
Proof. induction s as [|c s IH]; cbn; [trivial|]. intros [= H]. now apply IH. Qed.

Lemma append_inj_r (a b s : string) : (a ++ s = b ++ s)%string -> a = b.
Proof.
  revert b. induction a as [|c a IH]; intros b H.
  - destruct b as [|d b]; [reflexivity|].
    apply (f_equal String.length) in H. rewrite !length_append in H. cbn in H. lia.
  - destruct b as [|d b].
    + apply (f_equal String.length) in H. rewrite !length_append in H. cbn in H. lia.
    + cbn in H. injection H as -> H. f_equal. now apply IH.
Qed.

Lemma dashless_prefix_inj (c : ascii) (t t' s s' : string) :
  Py.count c t = 0 -> Py.count c t' = 0 ->
  (t ++ String c s = t' ++ String c s')%string -> t = t' /\ s = s'.
Proof.
  revert t'. induction t as [|x t IH]; intros t' Ht Ht' H.
  - destruct t' as [|y t']; cbn in H.
    + injection H as H. now split.
    + injection H as <- _. cbn in Ht'. rewrite Ascii.eqb_refl in Ht'. discriminate.
  - destruct t' as [|y t']; cbn in H.
    + injection H as -> _. cbn in Ht. rewrite Ascii.eqb_refl in Ht. discriminate.
    + injection H as <- H. cbn in Ht, Ht'.
      destruct (Ascii.eqb x c); [discriminate|]. cbn in Ht, Ht'.
      destruct (IH t' Ht Ht' H) as [-> ->]. now split.
Qed.

(** A name rebuilt with another tool version and architecture is the name of
    the file exactly when they are the file's own. *)
Lemma archive_file_retagged (x y : archive) :
  well_formed x = true -> well_formed y = true ->
  (archive_file (retagged x y) = archive_file x <->
   a_tool x = a_tool y /\ a_arch x = a_arch y).
Proof.
  intros Hx Hy.
  apply well_formed_inv in Hx. destruct Hx as (_ & _ & Htx & Hax & _).
  apply well_formed_inv in Hy. destruct Hy as (_ & _ & Hty & Hay & _).
  split.
  - unfold archive_file, archive_stem, retagged. cbn [a_name a_version a_revision a_tool a_arch].
    rewrite !append_assoc. intros H.
    do 3 (apply append_inj_l in H; cbn [String.append] in H; injection H as H).
    apply dashless_prefix_inj in H; [|assumption|assumption].
    destruct H as [Ht H]. apply append_inj_r in H. now split.
  - intros [Ht Ha]. unfold retagged. rewrite <- Ht, <- Ha. now destruct x.
Qed.

(** C2.  For a scan of well-formed archives that is parsed to its end, the
    paths of the discard list are those rebuilt for the discarded entries, and
    the name rebuilt for an entry is the name of its own file with the tool
    version and the architecture replaced by those of the file of the package
    that was parsed last.  It is the name of the entry's own file exactly when
    that file carries the same tool version and architecture as the last one;
    so it is for every entry when the files of each package agree, and then
    every path of the discard list is the path of a scanned archive.  Rebuilt
    with the values of its own file, a name is always the name of that
    file. *)
Theorem discarded_names_carry_the_group_values (archives : list archive)
    (log : list log_line) (pkgs : packages) (count : Z) :
  Forall (fun x => well_formed x = true) archives ->
  parse_packages (map archive_scan archives) = (log, Ok pkgs) ->
  (forall x name t a e vs,
     In x archives ->
     parse_file (a_path x) (archive_file x) = Ok (Parsed name t a e) ->
     format_pisi_file name (Package t a vs) e = archive_file x) /\
  (forall p,
     In p (find_redundant count pkgs) <->
     exists name meta e,
       In (name, meta) pkgs /\ In e (redundant_versions count meta) /\
       p = Py.os_path_join (path e) (format_pisi_file name meta e)) /\
  (forall name meta e,
     In (name, meta) pkgs -> In e (redundant_versions count meta) ->
     exists x last earlier e_last,
       In x archives /\ In last archives /\
       a_name x = name /\ a_name last = name /\
       parse_file (a_path x) (archive_file x)
       = Ok (Parsed name (a_tool x) (a_arch x) e) /\
       entries_of name (map archive_scan archives)
       = earlier ++ [(a_tool last, a_arch last, e_last)] /\
       pisi_version meta = a_tool last /\ arch meta = a_arch last /\
       format_pisi_file name meta e = archive_file (retagged x last) /\
       Py.os_path_join (path e) (format_pisi_file name meta e)
       = archive_full_path (retagged x last) /\
       (format_pisi_file name meta e = archive_file x <->
        a_tool x = a_tool last /\ a_arch x = a_arch last)) /\
  ((forall x y, In x archives -> In y archives -> a_name x = a_name y ->
                a_tool x = a_tool y /\ a_arch x = a_arch y) ->
   forall p, In p (find_redundant count pkgs) -> In p (map archive_full_path archives)).
Proof.
  intros Hwf Hparse. rewrite Forall_forall in Hwf.
  assert (Hkeys : NoDup (Dict.keys pkgs))
    by (apply (parse_loop_NoDup _ _ _ _ _ Hparse); constructor).
  assert (Hentry : forall name meta e,
             In (name, meta) pkgs -> In e (redundant_versions count meta) ->
             exists x last earlier e_last,
               In x archives /\ In last archives /\
               a_name x = name /\ a_name last = name /\
               parse_file (a_path x) (archive_file x)
               = Ok (Parsed name (a_tool x) (a_arch x) e) /\
               entries_of name (map archive_scan archives)
               = earlier ++ [(a_tool last, a_arch last, e_last)] /\
               pisi_version meta = a_tool last /\ arch meta = a_arch last /\
               format_pisi_file name meta e = archive_file (retagged x last) /\
               Py.os_path_join (path e) (format_pisi_file name meta e)
               = archive_full_path (retagged x last) /\
               (format_pisi_file name meta e = archive_file x <->
                a_tool x = a_tool last /\ a_arch x = a_arch last)).
  { intros name meta e Hin He. apply In_redundant_versions in He.
    pose proof (In_get pkgs name meta Hkeys Hin) as Hget.
    pose proof (parse_loop_get _ _ _ _ _ Hparse name) as Hgroup.
    cbn [Dict.get] in Hgroup. rewrite Hget in Hgroup. symmetry in Hgroup.
    destruct (merged_inv _ _ Hgroup) as (earlier & t' & a' & e' & Hent & Ht & Ha & Hvs).
    (* the file of the entry *)
    rewrite Hvs in He. rewrite in_map_iff in He.
    destruct He as [[[t a] e0] [He0 Hin0]]. cbn in He0. subst e0.
    apply In_entries_of in Hin0. destruct Hin0 as (p0 & f0 & Hf0 & Hparse0).
    rewrite in_map_iff in Hf0. destruct Hf0 as [x [[= <- <-] Hx]].
    destruct (parse_file_archive_parsed x name t a e (Hwf x Hx) Hparse0)
      as (Hn & -> & -> & Hpath & _).
    (* the file that was merged last *)
    assert (Hlast : In (t', a', e') (entries_of name (map archive_scan archives)))
      by (rewrite Hent; apply in_or_app; right; now left).
    apply In_entries_of in Hlast. destruct Hlast as (p1 & f1 & Hf1 & Hparse1).
    rewrite in_map_iff in Hf1. destruct Hf1 as [y [[= <- <-] Hy]].
    destruct (parse_file_archive_parsed y name t' a' e' (Hwf y Hy) Hparse1)
      as (Hn' & -> & -> & _ & _).
    (* the name that is rebuilt *)
    assert (Hfmt : format_pisi_file name meta e = archive_file (retagged x y)).
    { pose proof Hparse0 as Hp. rewrite parse_file_archive in Hp by now apply Hwf.
      destruct (parse_version (Py.join "." (archive_tuple x))) as [v|]; [|discriminate].
      injection Hp as _ He. subst e name.
      destruct meta as [mt ma mvs]. cbn in Ht, Ha. subst mt ma.
      exact (format_pisi_file_archive (retagged x y) mvs v). }
    exists x, y, earlier, e'.
    repeat (split; [first [assumption | now symmetry] |]).
    split.
    - unfold archive_full_path. rewrite Hpath, Hfmt. reflexivity.
    - rewrite Hfmt. apply archive_file_retagged; now apply Hwf. }
  split; [|split; [|split]].
  - intros x name t a e vs Hx H.
    now apply (parse_file_archive_parsed x name t a e (Hwf x Hx) H).
  - intros p. split; [apply In_find_redundant_inv|].
    intros (name & meta & e & Hin & He & ->).
    unfold find_redundant. apply in_flat_map. exists (name, meta).
    split; [exact Hin|]. apply in_map_iff. exists e. split; [reflexivity|exact He].
  - exact Hentry.
  - intros Huni p Hp. apply In_find_redundant_inv in Hp.
    destruct Hp as (name & meta & e & Hin & He & ->).
    destruct (Hentry name meta e Hin He)
      as (x & y & _ & _ & Hx & Hy & Hnx & Hny & _ & _ & _ & _ & _ & Hfull & _).
    rewrite Hfull.
    destruct (Huni x y Hx Hy) as [Ht Ha]; [congruence|].
    apply in_map_iff. exists x. split; [|exact Hx].
    unfold retagged. rewrite <- Ht, <- Ha. now destruct x.
Qed.

End Cleaner.

Arguments Parsed {Version}.
Arguments Skipped {Version}.
Arguments Entry {Version}.
Arguments path {Version}.
Arguments version {Version}.
Arguments comparable_version {Version}.
Arguments Package {Version}.
Arguments pisi_version {Version}.
Arguments arch {Version}.
Arguments versions {Version}.
Arguments parse_file {Version}.
Arguments parse_packages {Version}.
Arguments entries_of {Version}.
Arguments sorted_newest_first {Version}.
Arguments newest_first {Version}.
Arguments stable_for {Version}.
Arguments lt_asymmetric {Version}.
Arguments lt_negatively_transitive {Version}.
Arguments numeric_versions_by_value {Version}.
Arguments format_pisi_file {Version}.
Arguments redundant_versions {Version}.
Arguments find_redundant {Version}.
Arguments main {Version}.

(** A working directory in which the error log can always be written. *)
Abbreviation always_writable := (fun _ : list log_line => true).

(** ** The versions made of numbers are an instance *)

Lemma release_lt_asymmetric : lt_asymmetric Release.lt.
Proof.
  intros a. induction a as [|x a IH]; intros [|y b]; cbn; try discriminate;
    try reflexivity.
  intros H.
  destruct (N.ltb_spec x y), (N.ltb_spec y x), (N.eqb_spec x y), (N.eqb_spec y x);
    cbn in *; try lia; try discriminate; try reflexivity.
  now apply IH.
Qed.

Lemma release_lt_negatively_transitive : lt_negatively_transitive Release.lt.
Proof.
  intros a. induction a as [|x a IH]; intros [|y b] [|z c]; cbn;
    try discriminate; try reflexivity.
  intros H1 H2.
  destruct (N.ltb_spec x y), (N.ltb_spec y z), (N.ltb_spec x z),
    (N.eqb_spec x y), (N.eqb_spec y z), (N.eqb_spec x z);
    cbn in *; try lia; try discriminate; try reflexivity.
  now apply (IH b c).
Qed.

Lemma release_numeric_versions_by_value :
  numeric_versions_by_value Release.parse Release.lt.
Proof. intros s t v w a b Hv Hw Ha Hb. congruence. Qed.

(** ** The theorems at concrete scans *)

Abbreviation firefox_70 := (Archive "/repo/f" "firefox" "70.0" "1" "p2" "x86_64").
Abbreviation firefox_71 := (Archive "/repo/f" "firefox" "71.0" "1" "p2" "x86_64").
Abbreviation gtk_doc_old := (Archive "/repo/g" "gtk-doc" "1.2" "3" "p2" "x86_64").
Abbreviation gtk_doc_new := (Archive "/repo/g" "gtk-doc" "1.3" "1" "p3" "i686").

(** Three versions of one package, in the order of the scan. *)
Abbreviation v_1_2_0 := (Entry "/repo/a" ["1"; "2"; "0"; "1"] [1; 2; 0; 1]%N).
Abbreviation v_1_10_0 := (Entry "/repo/a" ["1"; "10"; "0"; "1"] [1; 10; 0; 1]%N).
Abbreviation v_1_9_0 := (Entry "/repo/a" ["1"; "9"; "0"; "1"] [1; 9; 0; 1]%N).

Lemma ranking_is_numeric_witness :
  sorted_newest_first Release.lt [v_1_2_0; v_1_10_0; v_1_9_0]
  = [v_1_10_0; v_1_9_0; v_1_2_0] /\
  String.ltb "9" "10" = false.
Proof.
  apply (ranking_is_numeric Release.t Release.parse Release.lt).
  - exact release_numeric_versions_by_value.
  - reflexivity.
  - reflexivity.
  - reflexivity.
  - intros e [<-|[<-|[<-|[]]]]; reflexivity.
Defined.

(** Five versions of one package. *)
Abbreviation five_versions :=
  (Package "p2" "x86_64"
     [Entry "/repo/a" ["3"; "1"] [3; 1]%N; Entry "/repo/a" ["1"; "1"] [1; 1]%N;
      Entry "/repo/a" ["5"; "1"] [5; 1]%N; Entry "/repo/a" ["2"; "1"] [2; 1]%N;
      Entry "/repo/a" ["4"; "1"] [4; 1]%N]).

Lemma discard_is_the_ranking_from_count_witness :
  (0 <= 3)%Z /\
  find_redundant Release.lt 3 [("a", five_versions)]
  = ["/repo/a/a-2-1-p2-x86_64.pisi"; "/repo/a/a-1-1-p2-x86_64.pisi"] /\
  newest_first Release.lt (sorted_newest_first Release.lt (versions five_versions)) /\
  (forall k d,
     In k (firstn 3 (sorted_newest_first Release.lt (versions five_versions))) ->
     In d (redundant_versions Release.lt 3 five_versions) ->
     Release.lt (comparable_version k) (comparable_version d) = false).
Proof.
  split; [lia|].
  destruct (discard_is_the_ranking_from_count Release.t Release.lt 3
              [("a", five_versions)])
    as (Hfind & Hmeta & _ & _); [lia|].
  destruct (Hmeta five_versions) as (_ & _ & _ & Hswo).
  destruct (Hswo release_lt_asymmetric release_lt_negatively_transitive)
    as [Hsorted Hnewest].
  split; [etransitivity; [exact Hfind | reflexivity]|].
  split; [exact Hsorted | exact Hnewest].
Defined.

Lemma group_keeps_last_tool_and_arch_witness :
  exists earlier pisi_version' arch' e,
    entries_of Release.parse "gtk-doc" [archive_scan gtk_doc_old; archive_scan gtk_doc_new]
    = earlier ++ [(pisi_version', arch', e)] /\
    "p3" = pisi_version' /\ "i686" = arch' /\
    [Entry "/repo/g" ["1"; "2"; "3"] [1; 2; 3]%N;
     Entry "/repo/g" ["1"; "3"; "1"] [1; 3; 1]%N]
    = map snd (entries_of Release.parse "gtk-doc"
                 [archive_scan gtk_doc_old; archive_scan gtk_doc_new]).
Proof.
  apply (group_keeps_last_tool_and_arch Release.t Release.parse always_writable
           [archive_scan gtk_doc_old; archive_scan gtk_doc_new] []
           [("gtk-doc",
             Package "p3" "i686"
               [Entry "/repo/g" ["1"; "2"; "3"] [1; 2; 3]%N;
                Entry "/repo/g" ["1"; "3"; "1"] [1; 3; 1]%N])]
           "gtk-doc"
           (Package "p3" "i686"
              [Entry "/repo/g" ["1"; "2"; "3"] [1; 2; 3]%N;
               Entry "/repo/g" ["1"; "3"; "1"] [1; 3; 1]%N])).
  - reflexivity.
  - reflexivity.
Defined.

Lemma ranking_is_stable_and_determined_witness :
  sorted_newest_first Release.lt
    [Entry "/repo/a" ["1"; "0"; "1"] [1; 0; 1]%N;
     Entry "/repo/b" ["2"; "1"] [2; 1]%N;
     Entry "/repo/c" ["1"; "0"; "1"] [1; 0; 1]%N]
  = [Entry "/repo/b" ["2"; "1"] [2; 1]%N;
     Entry "/repo/a" ["1"; "0"; "1"] [1; 0; 1]%N;
     Entry "/repo/c" ["1"; "0"; "1"] [1; 0; 1]%N] /\
  newest_first Release.lt
    (sorted_newest_first Release.lt
       [Entry "/repo/a" ["1"; "0"; "1"] [1; 0; 1]%N;
        Entry "/repo/b" ["2"; "1"] [2; 1]%N;
        Entry "/repo/c" ["1"; "0"; "1"] [1; 0; 1]%N]).
Proof.
  destruct (ranking_is_stable_and_determined Release.t Release.lt
              release_lt_asymmetric release_lt_negatively_transitive)
    as (Hsort & _ & _).
  split; [reflexivity|]. apply Hsort.
Defined.

Lemma fields_come_before_first_extension_witness :
  Py.contains ".pisi" "foo" = false /\
  Py.split_head ".pisi" "foo.pisi-1.0-1-p2-x86_64.pisi" = "foo" /\
  parse_file Release.parse "/repo" "foo.pisi-1.0-1-p2-x86_64.pisi" = Raise ValueError /\
  split_fields "foo.pisi-1.0-1-p2-x86_64.pisi"
  <> Ok ("foo.pisi", "1.0", "1", "p2", "x86_64").
Proof.
  destruct (fields_come_before_first_extension Release.t Release.parse
              "foo" "-1.0-1-p2-x86_64.pisi" eq_refl) as (Hhead & _ & Hraise & Hne).
  split; [reflexivity|]. split; [exact Hhead|]. split.
  - apply Hraise. cbn. lia.
  - apply (Hne "-1.0-1-p2-x86_64"); reflexivity.
Defined.

(** The package map of the two [gtk-doc] archives: the group carries the
    tool version and the architecture of the second. *)
Abbreviation gtk_doc_packages :=
  [("gtk-doc", Package "p3" "i686"
                 [Entry "/repo/g" ["1"; "2"; "3"] [1; 2; 3]%N;
                  Entry "/repo/g" ["1"; "3"; "1"] [1; 3; 1]%N])].

Lemma discarded_names_carry_the_group_values_witness :
  Forall (fun x => well_formed x = true) [gtk_doc_old; gtk_doc_new] /\
  parse_packages Release.parse always_writable
    (map archive_scan [gtk_doc_old; gtk_doc_new]) = ([], Ok gtk_doc_packages) /\
  (forall p,
     In p (find_redundant Release.lt 1 gtk_doc_packages) <->
     exists name meta e,
       In (name, meta) gtk_doc_packages /\
       In e (redundant_versions Release.lt 1 meta) /\
       p = Py.os_path_join (path e) (format_pisi_file name meta e)) /\
  (forall name meta e,
     In (name, meta) gtk_doc_packages ->
     In e (redundant_versions Release.lt 1 meta) ->
     exists x last,
       In x [gtk_doc_old; gtk_doc_new] /\ In last [gtk_doc_old; gtk_doc_new] /\
       pisi_version meta = a_tool last /\ arch meta = a_arch last /\
       format_pisi_file name meta e = archive_file (retagged x last) /\
       (format_pisi_file name meta e = archive_file x <->
        a_tool x = a_tool last /\ a_arch x = a_arch last)).
Proof.
  assert (Hwf : Forall (fun x => well_formed x = true) [gtk_doc_old; gtk_doc_new])
    by (repeat constructor).
  assert (Hparse : parse_packages Release.parse always_writable
                     (map archive_scan [gtk_doc_old; gtk_doc_new])
                   = ([], Ok gtk_doc_packages)) by reflexivity.
  split; [exact Hwf|]. split; [exact Hparse|].
  destruct (discarded_names_carry_the_group_values Release.t Release.parse Release.lt
              always_writable [gtk_doc_old; gtk_doc_new] [] gtk_doc_packages 1%Z
              Hwf Hparse)
    as (_ & Hpaths & Hentry & _).
  split; [exact Hpaths|].
  intros name meta e Hin He.
  destruct (Hentry name meta e Hin He)
    as (x & last & _ & _ & Hx & Hlast & _ & _ & _ & _ & Ht & Ha & Hfmt & _ & Hiff).
  exists x, last.
  split; [exact Hx|]. split; [exact Hlast|]. split; [exact Ht|].
  split; [exact Ha|]. split; [exact Hfmt | exact Hiff].
Defined.

(** The claim of C2 as it stands fails in two ways.  When two archives of one
    package differ in tool version and architecture, the older one is rebuilt
    with the values of the newer one.  And a file that matches the pattern
    with [".pisi"] inside its last field is rebuilt from what stands before
    the first [".pisi"], also when it is the only file of its package. *)
Lemma reconstruction_takes_the_group_values :
  ~ (forall archives,
       Forall (fun x => well_formed x = true) archives ->
       forall log pkgs count p,
         parse_packages Release.parse always_writable (map archive_scan archives) = (log, Ok pkgs) ->
         In p (find_redundant Release.lt count pkgs) ->
         In p (map archive_full_path archives)) /\
  ~ (forall archives,
       Forall (fun x => matches_pattern x = true) archives ->
       (forall x y, In x archives -> In y archives -> a_name x = a_name y ->
                    a_tool x = a_tool y /\ a_arch x = a_arch y) ->
       forall log pkgs count p,
         parse_packages Release.parse always_writable (map archive_scan archives) = (log, Ok pkgs) ->
         In p (find_redundant Release.lt count pkgs) ->
         In p (map archive_full_path archives)).
Proof.
  split.
  - intros H.
    specialize (H [gtk_doc_old; gtk_doc_new]).
    assert (Hwf : Forall (fun x => well_formed x = true) [gtk_doc_old; gtk_doc_new])
      by (repeat constructor).
    specialize (H Hwf [] _ 1%Z "/repo/g/gtk-doc-1.2-3-p3-i686.pisi" eq_refl).
    cbn in H. destruct H as [H|[H|[]]]; [now left|discriminate|discriminate].
  - intros H.
    specialize (H [Archive "/repo/a" "a" "1.0" "1" "p2" "x86_64.pisi.old"]).
    assert (Hpat : Forall (fun x => matches_pattern x = true)
                     [Archive "/repo/a" "a" "1.0" "1" "p2" "x86_64.pisi.old"])
      by (repeat constructor).
    specialize (H Hpat).
    assert (Huni : forall x y,
               In x [Archive "/repo/a" "a" "1.0" "1" "p2" "x86_64.pisi.old"] ->
               In y [Archive "/repo/a" "a" "1.0" "1" "p2" "x86_64.pisi.old"] ->
               a_name x = a_name y -> a_tool x = a_tool y /\ a_arch x = a_arch y)
      by (intros x y [<-|[]] [<-|[]] _; split; reflexivity).
    specialize (H Huni [] _ 0%Z "/repo/a/a-1.0-1-p2-x86_64.pisi" eq_refl).
    cbn in H. destruct H as [H|[]]; [now left|discriminate].
Qed.

(** A file system with a repository of two versions of one package, an empty
    directory, a directory whose only archive has a version that is refused,
    and a file; [stdin] and [removable] vary. *)
Abbreviation repo_exists :=
  (fun p : string =>
     String.eqb p "/repo" || String.eqb p "/empty" || String.eqb p "/broken"
     || String.eqb p "/etc/passwd").

Abbreviation repo_isdir :=
  (fun p : string =>
     String.eqb p "/repo" || String.eqb p "/empty" || String.eqb p "/broken").

Abbreviation repo_walk :=
  (fun p : string =>
     if String.eqb p "/repo"
     then [("/repo/a", ["a-1.0-1-p2-x86_64.pisi"; "a-2.0-1-p2-x86_64.pisi"; "README"])]
     else if String.eqb p "/broken" then [("/broken", ["a-1.0x-1-p2-x86_64.pisi"])]
     else []).

Abbreviation repo_world lines files :=
  (World lines repo_exists repo_isdir repo_walk files []).

Lemma short_name_aborts_the_run_witness :
  snd (parse_packages Release.parse always_writable
         [("/repo", "bad-file.pisi"); ("/repo", "firefox-70.0-1-p2-x86_64.pisi")])
  = Raise ValueError.
Proof.
  destruct (short_name_aborts_the_run Release.t Release.parse Release.lt always_writable
              [("/repo", "bad-file.pisi"); ("/repo", "firefox-70.0-1-p2-x86_64.pisi")]
              "/repo" "bad-file.pisi") as (_ & H).
  - now left.
  - cbn. lia.
  - apply H. reflexivity.
Defined.

Lemma remove_excess_stops_at_first_failure_witness :
  remove_excess ["/repo/a.pisi"; "/repo/b.pisi"; "/repo/c.pisi"]
    (repo_world [] ["/repo/a.pisi"; "/repo/c.pisi"])
  = (Raise OSError,
     World [] repo_exists repo_isdir repo_walk
       ["/repo/c.pisi"] [Removed "/repo/a.pisi"]).
Proof.
  apply (remove_excess_stops_at_first_failure ["/repo/a.pisi"] ["/repo/c.pisi"]
           "/repo/b.pisi" (repo_world [] ["/repo/a.pisi"; "/repo/c.pisi"])).
  - reflexivity.
  - cbn. intros [H|[]]. discriminate.
Defined.

(** The claim of C7 as it stands fails: a file after the one that cannot be
    removed stays where it is. *)
Lemma remove_excess_leaves_the_rest :
  ~ (forall old w p,
       In p old -> In p (removable w) ->
       ~ In p (removable (snd (remove_excess old w)))).
Proof.
  intros H.
  apply (H ["/repo/a.pisi"; "/repo/b.pisi"; "/repo/c.pisi"]
           (repo_world [] ["/repo/a.pisi"; "/repo/c.pisi"]) "/repo/c.pisi");
    cbn; auto.
Qed.

Lemma exit_codes_witness :
  (* a count of 0 that is not confirmed *)
  exit_status (fst (main Release.parse Release.lt always_writable (Arguments "/repo" 0)
                      (repo_world ["n"] []))) = 0%Z /\
  (* the directory is not there *)
  exit_status (fst (main Release.parse Release.lt always_writable (Arguments "/nowhere" 1)
                      (repo_world [] []))) = 255%Z /\
  (* a file, not a directory *)
  exit_status (fst (main Release.parse Release.lt always_writable (Arguments "/etc/passwd" 1)
                      (repo_world [] []))) = 254%Z /\
  (* no archive *)
  exit_status (fst (main Release.parse Release.lt always_writable (Arguments "/empty" 1)
                      (repo_world [] []))) = 1%Z /\
  (* no archive with a version that can be read *)
  exit_status (fst (main Release.parse Release.lt always_writable (Arguments "/broken" 1)
                      (repo_world [] []))) = 253%Z /\
  (* nothing is redundant *)
  exit_status (fst (main Release.parse Release.lt always_writable (Arguments "/repo" 2)
                      (repo_world [] []))) = 0%Z /\
  (* one of the two versions is removed *)
  exit_status (fst (main Release.parse Release.lt always_writable (Arguments "/repo" 1)
                      (repo_world ["yes"] ["/repo/a/a-1.0-1-p2-x86_64.pisi"])))
  = 0%Z.
Proof.
  split; [|split; [|split; [|split; [|split; [|split]]]]].
  - destruct (exit_codes Release.t Release.parse Release.lt always_writable
                (Arguments "/repo" 0) (repo_world ["n"] [])) as (H & _).
    apply H; reflexivity.
  - destruct (exit_codes Release.t Release.parse Release.lt always_writable
                (Arguments "/nowhere" 1) (repo_world [] [])) as (_ & H).
    destruct H as (H & _); [left; discriminate|].
    apply H. reflexivity.
  - destruct (exit_codes Release.t Release.parse Release.lt always_writable
                (Arguments "/etc/passwd" 1) (repo_world [] [])) as (_ & H).
    destruct H as (_ & H & _); [left; discriminate|].
    apply H; reflexivity.
  - destruct (exit_codes Release.t Release.parse Release.lt always_writable
                (Arguments "/empty" 1) (repo_world [] [])) as (_ & H).
    destruct H as (_ & _ & H); [left; discriminate|].
    destruct H as (H & _); [reflexivity | reflexivity|].
    apply H. reflexivity.
  - destruct (exit_codes Release.t Release.parse Release.lt always_writable
                (Arguments "/broken" 1) (repo_world [] [])) as (_ & H).
    destruct H as (_ & _ & H); [left; discriminate|].
    destruct H as (_ & H & _); [reflexivity | reflexivity|].
    apply H; [discriminate | reflexivity].
  - destruct (exit_codes Release.t Release.parse Release.lt always_writable
                (Arguments "/repo" 2) (repo_world [] [])) as (_ & H).
    destruct H as (_ & _ & H); [left; discriminate|].
    destruct H as (_ & _ & H); [reflexivity | reflexivity|].
    edestruct H as (H' & _); [reflexivity | discriminate |].
    apply H'. reflexivity.
  - destruct (exit_codes Release.t Release.parse Release.lt always_writable
                (Arguments "/repo" 1)
                (repo_world ["yes"] ["/repo/a/a-1.0-1-p2-x86_64.pisi"]))
      as (_ & H).
    destruct H as (_ & _ & H); [left; discriminate|].
    destruct H as (_ & _ & H); [reflexivity | reflexivity|].
    edestruct H as (_ & _ & H'); [reflexivity | discriminate |].
    apply H'.
    + discriminate.
    + reflexivity.
    + cbn. repeat constructor. intros [].
    + cbn. intros p [<-|[]]. now left.
Defined.

(** The claim of C8 as it stands fails twice.  A directory that does not
    exist ends the process with status 255, the low eight bits of the -1
    given to [exit]; and a count of 0 that is not confirmed ends it with 0
    before the directory is looked at. *)
Lemma missing_directory_does_not_give_minus_one :
  exit_status (fst (main Release.parse Release.lt always_writable
                      (Arguments "/nowhere" 1) (repo_world [] []))) = 255%Z /\
  exit_status (fst (main Release.parse Release.lt always_writable
                      (Arguments "/nowhere" 0) (repo_world ["n"] []))) = 0%Z /\
  ~ (forall args w,
       fs_exists w (directory args) = false ->
       exit_status (fst (main Release.parse Release.lt always_writable args w))
       = (-1)%Z).
Proof.
  split; [reflexivity|]. split; [reflexivity|].
  intros H.
  specialize (H (Arguments "/nowhere" 1) (repo_world [] []) eq_refl).
  discriminate H.
Qed.

Lemma removal_needs_confirmation_witness :
  events (repo_world [""] ["/repo/a/a-1.0-1-p2-x86_64.pisi"]) = [] /\
  fst (main Release.parse Release.lt always_writable (Arguments "/repo" 0)
         (repo_world [""] ["/repo/a/a-1.0-1-p2-x86_64.pisi"]))
  = Raise (SystemExit 0) /\
  removable (snd (main Release.parse Release.lt always_writable (Arguments "/repo" 0)
                    (repo_world [""] ["/repo/a/a-1.0-1-p2-x86_64.pisi"])))
  = ["/repo/a/a-1.0-1-p2-x86_64.pisi"] /\
  events (snd (main Release.parse Release.lt always_writable (Arguments "/repo" 0)
                 (repo_world [""] ["/repo/a/a-1.0-1-p2-x86_64.pisi"])))
  = [Prompted zero_count_message false].
Proof.
  split; [reflexivity|].
  destruct (removal_needs_confirmation Release.t Release.parse Release.lt always_writable
              (Arguments "/repo" 0)
              (repo_world [""] ["/repo/a/a-1.0-1-p2-x86_64.pisi"]) eq_refl)
    as (_ & _ & _ & H).
  apply H; reflexivity.
Defined.

(** The example of the two firefox archives: one version to keep leaves the
    older archive to remove, two versions to keep leave nothing. *)
Example firefox_keep_one :
  match snd (parse_packages Release.parse always_writable [archive_scan firefox_70; archive_scan firefox_71]) with
  | Ok pkgs => find_redundant Release.lt 1 pkgs
  | Raise _ => []
  end = ["/repo/f/firefox-70.0-1-p2-x86_64.pisi"].
Proof. reflexivity. Qed.

Example firefox_keep_two :
  match snd (parse_packages Release.parse always_writable [archive_scan firefox_70; archive_scan firefox_71]) with
  | Ok pkgs => find_redundant Release.lt 2 pkgs
  | Raise _ => ["unreachable"]
  end = [].
Proof. reflexivity. Qed.

(** A version that is refused is logged and skipped; the archives around it
    are parsed. *)
Example refused_version_is_skipped :
  parse_packages Release.parse always_writable
    [("/repo/a", "a-1.0-1-p2-x86_64.pisi"); ("/repo/a", "a-1.0x-1-p2-x86_64.pisi");
     ("/repo/b", "b-2-1-p2-x86_64.pisi")]
  = ([LogLine "a-1.0x-1-p2-x86_64.pisi" "1.0x"],
     Ok [("a", Package "p2" "x86_64" [Entry "/repo/a" ["1"; "0"; "1"] [1; 0; 1]%N]);
         ("b", Package "p2" "x86_64" [Entry "/repo/b" ["2"; "1"] [2; 1]%N])]).
Proof. reflexivity. Qed.

Arguments skipped_of {Version}.
Arguments is_skipped {Version}.
Arguments parsed_names {Version}.

(** ** The further properties at concrete scans *)

Lemma fields_are_the_last_four_dashes_witness :
  Py.split_head ".pisi" "gtk-doc-1.2-3-p2-x86_64.pisi"
  = ("gtk-doc" ++ "-" ++ "1.2" ++ "-" ++ "3" ++ "-" ++ "p2" ++ "-" ++ "x86_64")%string /\
  Py.count "-" "gtk-doc" + 4
  = Py.count "-" (Py.split_head ".pisi" "gtk-doc-1.2-3-p2-x86_64.pisi").
Proof.
  destruct (fields_are_the_last_four_dashes "gtk-doc-1.2-3-p2-x86_64.pisi"
              "gtk-doc" "1.2" "3" "p2" "x86_64" eq_refl)
    as (Hs & _ & _ & _ & _ & Hn).
  now split.
Defined.

(** A name that ends with [".pisi"] and holds another one is rebuilt as a
    different name. *)
Lemma rebuilt_name_is_the_stem_witness :
  format_pisi_file "a" (Package "p2" "x86_64" [])
    (Entry "/repo/a" ["1"; "0"; "1"] [1; 0; 1]%N)
  = "a-1.0-1-p2-x86_64.pisi" /\
  format_pisi_file "a" (Package "p2" "x86_64" [])
    (Entry "/repo/a" ["1"; "0"; "1"] [1; 0; 1]%N)
  <> "a-1.0-1-p2-x86_64.pisi.old.pisi".
Proof.
  destruct (rebuilt_name_is_the_stem Release.t Release.parse
              "/repo/a" "a-1.0-1-p2-x86_64.pisi.old.pisi" "a" "p2" "x86_64"
              (Entry "/repo/a" ["1"; "0"; "1"] [1; 0; 1]%N) [] eq_refl)
    as (Hfmt & _ & Hiff).
  split; [exact Hfmt|].
  intros E. apply Hiff in E. discriminate E.
Defined.

Abbreviation mixed_scan :=
  [("/repo/a", "a-1.0-1-p2-x86_64.pisi"); ("/repo/a", "a-1.0x-1-p2-x86_64.pisi");
   ("/repo/b", "b-2-1-p2-x86_64.pisi"); ("/repo/a", "a-1.1-1-p2-x86_64.pisi")].

Abbreviation mixed_packages :=
  [("a", Package "p2" "x86_64"
           [Entry "/repo/a" ["1"; "0"; "1"] [1; 0; 1]%N;
            Entry "/repo/a" ["1"; "1"; "1"] [1; 1; 1]%N]);
   ("b", Package "p2" "x86_64" [Entry "/repo/b" ["2"; "1"] [2; 1]%N])].

(** When the error log cannot be written, the first refused version ends the
    loop: the files after it are not parsed. *)
Example unwritable_log_ends_the_loop :
  parse_packages Release.parse (fun _ : list log_line => false) mixed_scan
  = ([], Raise OSError).
Proof. reflexivity. Qed.

Lemma refused_versions_are_logged_and_skipped_witness :
  [LogLine "a-1.0x-1-p2-x86_64.pisi" "1.0x"] = skipped_of Release.parse mixed_scan /\
  parse_packages Release.parse always_writable
    (filter (fun pf => negb (is_skipped Release.parse pf)) mixed_scan)
  = ([], Ok mixed_packages).
Proof.
  destruct (refused_versions_are_logged_and_skipped Release.t Release.parse always_writable
              mixed_scan [LogLine "a-1.0x-1-p2-x86_64.pisi" "1.0x"]
              mixed_packages eq_refl) as (Hlog & Hrest & _).
  now split.
Defined.

Lemma package_map_invariant_witness :
  NoDup (Dict.keys mixed_packages) /\
  (In "a" (Dict.keys mixed_packages) <-> entries_of Release.parse "a" mixed_scan <> []).
Proof.
  destruct (package_map_invariant Release.t Release.parse always_writable mixed_scan
              [LogLine "a-1.0x-1-p2-x86_64.pisi" "1.0x"] mixed_packages eq_refl)
    as (Hnd & Hkeys & _).
  split; [exact Hnd | apply Hkeys].
Defined.

Lemma packages_are_in_order_of_first_appearance_witness :
  Dict.keys mixed_packages
  = first_occurrences [] (parsed_names Release.parse mixed_scan) /\
  find_redundant Release.lt 0 mixed_packages
  = ["/repo/a/a-1.1-1-p2-x86_64.pisi"; "/repo/a/a-1.0-1-p2-x86_64.pisi";
     "/repo/b/b-2-1-p2-x86_64.pisi"].
Proof.
  destruct (packages_are_in_order_of_first_appearance Release.t Release.parse
              Release.lt always_writable mixed_scan [LogLine "a-1.0x-1-p2-x86_64.pisi" "1.0x"]
              mixed_packages 0 eq_refl) as (Hk & Hf).
  split; [exact Hk|]. rewrite Hf. reflexivity.
Defined.

Lemma discard_list_size_witness :
  (0 <= 1)%Z /\ length (find_redundant Release.lt 1 mixed_packages) = 1.
Proof.
  split; [lia|].
  destruct (discard_list_size Release.t Release.lt 1 mixed_packages) as (H & _);
    [lia|].
  rewrite H. reflexivity.
Defined.

Lemma negative_count_discards_the_oldest_witness :
  (-1 < 0)%Z /\
  confirm_zero_count (Arguments "/repo" (-1)) (repo_world [] []) = (Ok tt, repo_world [] []) /\
  find_redundant Release.lt (-1) [("a", five_versions)] = ["/repo/a/a-1-1-p2-x86_64.pisi"] /\
  redundant_versions Release.lt (-1) five_versions
  = [Entry "/repo/a" ["1"; "1"] [1; 1]%N] /\
  newest_first Release.lt (sorted_newest_first Release.lt (versions five_versions)) /\
  (forall x d,
     In x (firstn 4 (sorted_newest_first Release.lt (versions five_versions))) ->
     In d (redundant_versions Release.lt (-1) five_versions) ->
     Release.lt (comparable_version x) (comparable_version d) = false).
Proof.
  split; [lia|].
  destruct (negative_count_discards_the_oldest Release.t Release.lt
              (Arguments "/repo" (-1)) (repo_world [] []) "a" five_versions)
    as (Hgo & Hfind & Hslice & _ & _ & Hswo); [cbn; lia|].
  destruct (Hswo release_lt_asymmetric release_lt_negatively_transitive)
    as [Hsorted Holdest].
  split; [exact Hgo|].
  split; [etransitivity; [exact Hfind | reflexivity]|].
  split; [etransitivity; [exact Hslice | reflexivity]|].
  split; [exact Hsorted | exact Holdest].
Defined.

Lemma discard_list_shrinks_with_count_witness :
  (0 <= 0 <= 1)%Z /\
  incl (find_redundant Release.lt 1 mixed_packages)
       (find_redundant Release.lt 0 mixed_packages).
Proof.
  split; [lia|].
  apply (discard_list_shrinks_with_count Release.t Release.lt 0 1 mixed_packages). lia.
Defined.

Lemma kept_versions_are_the_newest_witness :
  (0 <= 3)%Z /\
  forall k d,
    In k (firstn 3 (sorted_newest_first Release.lt (versions five_versions))) ->
    In d (redundant_versions Release.lt 3 five_versions) ->
    Release.lt (comparable_version k) (comparable_version d) = false.
Proof.
  split; [lia|].
  destruct (kept_versions_are_the_newest Release.t Release.lt 3 five_versions
              release_lt_asymmetric release_lt_negatively_transitive)
    as (_ & _ & H); [lia|].
  exact H.
Defined.

Lemma kept_archives_are_not_discarded_witness :
  ~ In "/repo/f/firefox-71.0-1-p2-x86_64.pisi"
       (find_redundant Release.lt 1
          [("firefox", Package "p2" "x86_64"
                         [Entry "/repo/f" ["70"; "0"; "1"] [70; 0; 1]%N;
                          Entry "/repo/f" ["71"; "0"; "1"] [71; 0; 1]%N])]).
Proof.
  assert (Hwf : Forall (fun x => well_formed x = true) [firefox_70; firefox_71])
    by (repeat constructor).
  assert (Huni : forall x y, In x [firefox_70; firefox_71] ->
                             In y [firefox_70; firefox_71] ->
                             a_name x = a_name y ->
                             a_tool x = a_tool y /\ a_arch x = a_arch y)
    by (intros x y [<-|[<-|[]]] [<-|[<-|[]]] _; split; reflexivity).
  assert (Hnd : NoDup (map archive_full_path [firefox_70; firefox_71])).
  { cbn. repeat constructor; cbn; [intros [H|[]]; discriminate | intros []]. }
  destruct (kept_archives_are_not_discarded Release.t Release.parse Release.lt always_writable
              [firefox_70; firefox_71] 1 []
              [("firefox", Package "p2" "x86_64"
                             [Entry "/repo/f" ["70"; "0"; "1"] [70; 0; 1]%N;
                              Entry "/repo/f" ["71"; "0"; "1"] [71; 0; 1]%N])]
              Hwf Huni Hnd ltac:(lia) eq_refl
              "firefox"
              (Package "p2" "x86_64"
                 [Entry "/repo/f" ["70"; "0"; "1"] [70; 0; 1]%N;
                  Entry "/repo/f" ["71"; "0"; "1"] [71; 0; 1]%N])
              (Entry "/repo/f" ["71"; "0"; "1"] [71; 0; 1]%N))
    as (_ & H).
  - now left.
  - cbn. now left.
  - exact H.
Defined.

Lemma discard_list_has_no_repeats_witness :
  NoDup (find_redundant Release.lt 0
           [("firefox", Package "p2" "x86_64"
                          [Entry "/repo/f" ["70"; "0"; "1"] [70; 0; 1]%N;
                           Entry "/repo/f" ["71"; "0"; "1"] [71; 0; 1]%N])]) /\
  In (archive_full_path firefox_70)
     (find_redundant Release.lt 0
        [("firefox", Package "p2" "x86_64"
                       [Entry "/repo/f" ["70"; "0"; "1"] [70; 0; 1]%N;
                        Entry "/repo/f" ["71"; "0"; "1"] [71; 0; 1]%N])]).
Proof.
  assert (Hwf : Forall (fun x => well_formed x = true) [firefox_70; firefox_71])
    by (repeat constructor).
  assert (Huni : forall x y, In x [firefox_70; firefox_71] ->
                             In y [firefox_70; firefox_71] ->
                             a_name x = a_name y ->
                             a_tool x = a_tool y /\ a_arch x = a_arch y)
    by (intros x y [<-|[<-|[]]] [<-|[<-|[]]] _; split; reflexivity).
  assert (Hnd : NoDup (map archive_full_path [firefox_70; firefox_71])).
  { cbn. repeat constructor; cbn; [intros [H|[]]; discriminate | intros []]. }
  destruct (discard_list_has_no_repeats Release.t Release.parse Release.lt always_writable
              [firefox_70; firefox_71] []
              [("firefox", Package "p2" "x86_64"
                             [Entry "/repo/f" ["70"; "0"; "1"] [70; 0; 1]%N;
                              Entry "/repo/f" ["71"; "0"; "1"] [71; 0; 1]%N])]
              Hwf Huni Hnd eq_refl) as (Hall & Hzero).
  split.
  - apply (Hall 0%Z).
  - apply Hzero; [now left | discriminate].
Defined.

Lemma yes_no_prompt_answers_witness :
  read_answer ["maybe"; "?"; "Yes"; "n"] = (Ok true, ["n"]) /\
  read_answer ["maybe"; "?"] = (Raise EOFError, []).
Proof.
  assert (Hjunk : Forall (fun l => unrecognised l = true) ["maybe"; "?"])
    by (repeat constructor).
  destruct (yes_no_prompt_answers ["maybe"; "?"] Hjunk) as (_ & Hyes & _ & Heof & _).
  split; [|exact Heof].
  apply (Hyes "Y"%char "es" ["n"]). right. now left.
Defined.

Lemma confirmed_run_removes_the_discard_list_witness :
  fst (main Release.parse Release.lt always_writable (Arguments "/repo" 1)
         (repo_world ["y"] ["/repo/a/a-1.0-1-p2-x86_64.pisi";
                            "/repo/a/a-2.0-1-p2-x86_64.pisi"]))
  = Ok tt /\
  events (snd (main Release.parse Release.lt always_writable (Arguments "/repo" 1)
                 (repo_world ["y"] ["/repo/a/a-1.0-1-p2-x86_64.pisi";
                                    "/repo/a/a-2.0-1-p2-x86_64.pisi"])))
  = [Prompted (remove_message 1) true; Removed "/repo/a/a-1.0-1-p2-x86_64.pisi"].
Proof.
  destruct (confirmed_run_removes_the_discard_list Release.t Release.parse Release.lt always_writable
              (Arguments "/repo" 1)
              (repo_world ["y"] ["/repo/a/a-1.0-1-p2-x86_64.pisi";
                                 "/repo/a/a-2.0-1-p2-x86_64.pisi"])
              []
              [("a", Package "p2" "x86_64"
                       [Entry "/repo/a" ["1"; "0"; "1"] [1; 0; 1]%N;
                        Entry "/repo/a" ["2"; "0"; "1"] [2; 0; 1]%N])])
    as (Hok & _ & Hev).
  - left. discriminate.
  - reflexivity.
  - reflexivity.
  - reflexivity.
  - discriminate.
  - reflexivity.
  - cbn. repeat constructor. intros [].
  - cbn. intros p [<-|[]]. now left.
  - split; [exact Hok|]. rewrite Hev. reflexivity.
Defined.
